(** * Expression parsing and type checking for style expressions

    A shallow embedding of the expression dispatcher ([parseExpression]),
    the subtype checker ([checkSubtype]), the parsing context and the
    [Curve] expression kind, followed by the properties proved about them. *)

From Stdlib Require Import QArith DecimalString.
From stdpp Require Import gmap strings list fin_maps.

Set Warnings "-register-all".
Open Scope string_scope.
Open Scope list_scope.

(** ** Raw input values

    The parser receives [mixed] values: the JSON values, [undefined], and
    values of the remaining run-time types (functions, symbols), which only
    matter through the result of [typeof].  JSON numbers are finite doubles;
    the only operations performed on them are order comparisons, so they are
    embedded as rationals.  [NaN], which no JSON text denotes and for which
    every comparison is false, is not among them; the properties of labels
    and control points below are stated through the comparisons that the
    code performs. *)

Inductive OtherValue : Type :=
| AFunction
| ASymbol.

Inductive JSON : Type :=
| JNull
| JBool (b : bool)
| JNum (q : Q)
| JStr (s : string)
| JArr (items : list JSON)
| JObj (fields : list (string * JSON))
| JUndefined
| JOther (o : OtherValue).

Definition typeof (v : JSON) : string :=
  match v with
  | JNull => "object"
  | JBool _ => "boolean"
  | JNum _ => "number"
  | JStr _ => "string"
  | JArr _ => "object"
  | JObj _ => "object"
  | JUndefined => "undefined"
  | JOther AFunction => "function"
  | JOther ASymbol => "symbol"
  end.

(** The double-quote character, for the messages that contain one. *)
Definition dq : string := String (Ascii.ascii_of_nat 34) EmptyString.

Definition showNat (n : nat) : string := NilZero.string_of_uint (Nat.to_uint n).

Definition bracket (n : nat) : string := "[" +:+ showNat n +:+ "]".

Definition Qgtb (x y : Q) : bool :=
  match (x ?= y)%Q with Gt => true | _ => false end.

Definition Qltb (x y : Q) : bool :=
  match (x ?= y)%Q with Lt => true | _ => false end.

(** ** Types *)

(** Modelled from the spec: the [types] module ([./types], required by both
    sources) is not among the sources.  It supplies the type constants, the
    [array] constructor and [toString].  The variants are those of the
    spec's Type; [N] is the optional fixed length of an array type. *)
Inductive Ty : Type :=
| NullType
| NumberType
| StringType
| BooleanType
| ObjectType
| ColorType
| ValueType
| ErrorType
| array (itemType : Ty) (N : option nat).

(** Modelled from the spec: the [kind] tag of a type object.  The tags
    ['Error'], ['Value'] and ['Array'] are the ones [checkSubtype] compares
    against; the others are the variant names of the spec. *)
Definition kind (t : Ty) : string :=
  match t with
  | NullType => "Null"
  | NumberType => "Number"
  | StringType => "String"
  | BooleanType => "Boolean"
  | ObjectType => "Object"
  | ColorType => "Color"
  | ValueType => "Value"
  | ErrorType => "Error"
  | array _ _ => "Array"
  end.

Global Instance Ty_eq_dec : EqDecision Ty.
Proof. solve_decision. Defined.

(** What a caller stores in the [expectedType] slot of a context.  The slot
    is declared [?Type], but [Curve.parse] calls [context.concat(i, 'curve')],
    which puts the expression name there; a string has no [kind] property. *)

Inductive Expected : Type :=
| ExpType (t : Ty)
| ExpName (s : string).

Definition expectedKind (e : Expected) : option string :=
  match e with
  | ExpType t => Some (kind t)
  | ExpName _ => None
  end.

(** JavaScript truthiness of a value in that slot: objects are truthy, a
    string is truthy unless it is empty. *)
Definition truthy (e : Expected) : bool :=
  match e with
  | ExpType _ => true
  | ExpName s => negb (String.eqb s EmptyString)
  end.

(** ** Expressions *)

Inductive InterpolationType : Type :=
| Step
| Linear
| Exponential (base : Q)
| CubicBezier (controlPoints : list Q).

Definition interpolationName (i : InterpolationType) : string :=
  match i with
  | Step => "step"
  | Linear => "linear"
  | Exponential _ => "exponential"
  | CubicBezier _ => "cubic-bezier"
  end.

(** An expression is a [Curve] or an instance of another registered kind.
    The other kinds are not among the sources; an instance is represented by
    what the code here observes of it: its [key], its [type] and the result of
    its [serialize()]. *)

Inductive Expression : Type :=
| Curve (key : string) (type : Ty) (interpolation : InterpolationType)
        (input : Expression) (stops : list (Q * Expression))
| Other (key : string) (type : Ty) (serialized : JSON).

Definition Stops : Type := list (Q * Expression).

Definition exprType (e : Expression) : Ty :=
  match e with
  | Curve _ t _ _ _ => t
  | Other _ t _ => t
  end.

Definition exprKey (e : Expression) : string :=
  match e with
  | Curve k _ _ _ _ => k
  | Other k _ _ => k
  end.

(** ** Errors, scopes and the parsing context *)

Record ParsingError : Type := mkParsingError { errKey : string; errMessage : string }.

Inductive Scope : Type :=
| mkScope (parent : option Scope) (bindings : gmap string Expression).

(** [new Scope(parent, bindings)]: later pairs overwrite earlier ones. *)
Definition newScope (parent : option Scope) (bs : list (string * Expression)) : Scope :=
  mkScope parent (foldl (fun m b => <[b.1 := b.2]> m) ∅ bs).

Definition Scope_concat (s : Scope) (bs : list (string * Expression)) : Scope :=
  newScope (Some s) bs.

Fixpoint Scope_has (s : Scope) (name : string) : bool :=
  match s with
  | mkScope parent bindings =>
      match bindings !! name with
      | Some _ => true
      | None => match parent with Some p => Scope_has p name | None => false end
      end
  end.

(** [get] throws when the name is bound nowhere; [None] stands for that. *)
Fixpoint Scope_get (s : Scope) (name : string) : option Expression :=
  match s with
  | mkScope parent bindings =>
      match bindings !! name with
      | Some e => Some e
      | None => match parent with Some p => Scope_get p name | None => None end
      end
  end.

(** The registry maps an operator name to an expression class.  [KCurve] is
    the class defined here; [KOther c] is a class supplied by the host.  The
    registry and the bindings of a scope are objects used as maps; here a
    lookup is the lookup of an own property.  The names that such objects
    inherit from their prototype are treated in [Throwing.lookup] for the
    registry and in [PlainObject.read] for the bindings. *)
Inductive Kind : Type :=
| KCurve
| KOther (class : string).

(** The [errors] array is shared by reference between a context and all the
    contexts derived from it: a context holds the location of the array, and
    the arrays live in a store. *)
Definition loc : Type := nat.
Abbreviation Store := (gmap loc (list ParsingError)).

Record ParsingContext : Type := mkContext {
  definitions : gmap string Kind;
  path : list nat;
  key : string;
  scope : Scope;
  errors : loc;
  expectedType : option Expected
}.

Definition pathKey (p : list nat) : string := String.concat EmptyString (map bracket p).

(** The constructor: [key] is derived from [path]. *)
Definition newParsingContext (defs : gmap string Kind) (p : list nat)
    (expected : option Expected) (sc : Scope) (errs : loc) : ParsingContext :=
  {| definitions := defs; path := p; key := pathKey p; scope := sc;
     errors := errs; expectedType := expected |}.

(** [concat(index, expectedType, bindings)]; [expectedType || null] keeps
    a truthy argument and replaces anything else by [null]; an array of
    bindings is truthy even when empty. *)
Definition concat (c : ParsingContext) (index : nat) (expected : option Expected)
    (bindings : option (list (string * Expression))) : ParsingContext :=
  let path' := path c ++ [index] in
  let scope' := match bindings with
                | Some bs => Scope_concat (scope c) bs
                | None => scope c
                end in
  newParsingContext (definitions c) path'
    (match expected with
     | Some e => if truthy e then Some e else None
     | None => None
     end)
    scope' (errors c).

Definition readErrors (h : Store) (l : loc) : list ParsingError := default [] (h !! l).

(** [this.errors.push(e)] *)
Definition push (l : loc) (e : ParsingError) (h : Store) : Store :=
  <[l := readErrors h l ++ [e]]> h.

(** [context.error(message, ...keys)]: pushes one error; the caller returns
    the [null] it yields. *)
Definition error (c : ParsingContext) (message : string) (keys : list nat) (h : Store) : Store :=
  push (errors c) (mkParsingError (key c +:+ String.concat EmptyString (map bracket keys)) message) h.

(** ** The subtype checker *)

Section Checker.

(** [toString] of the absent [types] module; it is only used to build
    messages.  It is applied to whatever sits in the [expected] position. *)
Variable toString : Expected -> string.

(** The [members] array of [checkSubtype]; [array(ValueType)] leaves the
    length unconstrained. *)
Definition members : list Ty :=
  [NullType; NumberType; StringType; BooleanType; ColorType; ObjectType;
   array ValueType None].

Definition Check : Type :=
  Expected -> Ty -> option ParsingContext -> Store -> option string * Store.

(** [for (const memberType of members) if (!checkSubtype(memberType, t)) return null;]
    The result is [true] when the loop returned from inside. *)
Fixpoint anyMember (check : Check) (ms : list Ty) (t : Ty) (h : Store) : bool * Store :=
  match ms with
  | [] => (false, h)
  | memberType :: ms' =>
      let '(r, h') := check (ExpType memberType) t None h in
      match r with
      | None => (true, h')
      | Some _ => anyMember check ms' t h'
      end
  end.

Definition subtypeMessage (expected : Expected) (t : Ty) : string :=
  "Expected " +:+ toString expected +:+ " but found " +:+ toString (ExpType t) +:+ " instead.".

(** [if (context) context.error(error); return error;] *)
Definition reject (expected : Expected) (t : Ty) (context : option ParsingContext)
    (h : Store) : option string * Store :=
  (Some (subtypeMessage expected t),
   match context with
   | Some c => error c (subtypeMessage expected t) [] h
   | None => h
   end).

(** The body of [checkSubtype] (lines 196-243), with the recursive calls
    made through [check]: first the test for the actual type [Error], then
    the branches on the kind of [expected].  The result is [None] for [null]
    and [Some message] otherwise; a message is never the empty string, so it
    is truthy wherever the source tests it. *)
Definition checkSubtypeBody (check : Check) : Check :=
  fun expected t context h =>
  match t with
  | ErrorType => (None, h)
  | _ =>
      match expected with
      | ExpType ValueType =>
          match t with
          | ValueType => (None, h)
          | _ =>
              let '(found, h') := anyMember check members t h in
              if found then (None, h') else reject expected t context h'
          end
      | ExpType (array itemType N) =>
          match t with
          | array itemType' N' =>
              let '(itemError, h') := check (ExpType itemType) itemType' None h in
              match itemError with
              | Some _ => reject expected t context h'
              | None =>
                  match N with
                  | Some n =>
                      if decide (N' = Some n) then (None, h')
                      else reject expected t context h'
                  | None => (None, h')
                  end
              end
          | _ => reject expected t context h
          end
      | _ =>
          if decide (Some (kind t) = expectedKind expected) then (None, h)
          else reject expected t context h
      end
  end.

(** The recursion is on the actual type, except that [Value] first tries its
    members against the same actual type; it is driven by a counter that
    [checkSubtype] sets high enough ([checkSubtype_unfold]). *)
Fixpoint checkSubtypeFuel (fuel : nat) : Check :=
  match fuel with
  | 0 => fun _ _ _ h => (None, h)
  | S fuel' => checkSubtypeBody (checkSubtypeFuel fuel')
  end.

Fixpoint tySize (t : Ty) : nat :=
  match t with
  | array itemType _ => S (tySize itemType)
  | _ => 1
  end.

(** The counter a call needs. *)
Definition need (expected : Expected) (t : Ty) : nat :=
  2 * tySize t + match expected with ExpType ValueType => 1 | _ => 0 end.

Definition checkSubtype : Check :=
  fun expected t context h => checkSubtypeFuel (2 * tySize t + 2) expected t context h.

(** The test that the loop over the members performs on one member. *)
Definition accepts (t : Ty) (h : Store) (m : Ty) : bool :=
  bool_decide ((checkSubtype (ExpType m) t None h).1 = None).

End Checker.

(** ** The dispatcher and the Curve kind *)

Definition Parse : Type :=
  JSON -> ParsingContext -> Store -> option Expression * Store.

Definition isString (v : JSON) (s : string) : bool :=
  match v with
  | JStr s' => String.eqb s' s
  | _ => false
  end.

Definition asNumber (v : JSON) : option Q :=
  match v with
  | JNum q => Some q
  | _ => None
  end.

Definition isNumber (v : JSON) : bool :=
  match v with
  | JNum _ => true
  | _ => false
  end.

(** [t => typeof t !== 'number' || t < 0 || t > 1] *)
Definition badControlPoint (v : JSON) : bool :=
  match v with
  | JNum t => Qltb t 0 || Qgtb t 1
  | _ => true
  end.

Definition literalHint (inner : string) : string :=
  "[" +:+ dq +:+ "literal" +:+ dq +:+ ", " +:+ inner +:+ "]".

Definition msgEmptyArray : string :=
  "Expected an array with at least one element. If you wanted a literal array, use "
  +:+ literalHint "[]" +:+ ".".

Definition msgOperatorName (op : JSON) : string :=
  "Expression name must be a string, but found " +:+ typeof op
  +:+ " instead. If you wanted a literal array, use " +:+ literalHint "[...]" +:+ ".".

Definition msgUnknown (op : string) : string :=
  "Unknown expression " +:+ dq +:+ op +:+ dq
  +:+ ". If you wanted a literal array, use " +:+ literalHint "[...]" +:+ ".".

Definition msgUndefined : string := "'undefined' value invalid. Use null instead.".

Definition msgBareObject : string :=
  "Bare objects invalid. Use " +:+ literalHint "{...}" +:+ " instead.".

Definition msgNotArray (v : JSON) : string :=
  "Expected an array, but found " +:+ typeof v +:+ " instead.".

Definition msgTooFew (n : nat) : string :=
  "Expected at least 2 arguments, but found only " +:+ showNat n +:+ ".".

Definition msgBase : string := "Exponential interpolation requires a numeric base.".

Definition msgBezier : string :=
  "cubic bezier interpolation requires four numeric arguments with values between 0 and 1.".

Definition msgLabel : string :=
  "Input/output pairs for " +:+ dq +:+ "curve" +:+ dq
  +:+ " expressions must be defined using literal numeric values (not computed expressions) for the input values.".

Definition msgAscending : string :=
  "Input/output pairs for " +:+ dq +:+ "curve" +:+ dq
  +:+ " expressions must be arranged with input values in strictly ascending order.".

(** ** Canonical form of raw expressions

    [serialize] gives back the raw expression up to two things: a bare
    scalar in an expression position comes back in the form the dispatcher
    gives it before parsing, [["literal", v]]; and only the elements of an
    interpolation array that [Curve.parse] reads come back. *)

(** The values of a flattened label/value list, at the odd positions. *)
Fixpoint mapValues (f : JSON -> JSON) (rest : list JSON) : list JSON :=
  match rest with
  | label :: value :: rest' => label :: f value :: mapValues f rest'
  | _ => rest
  end.

Fixpoint allValues (f : JSON -> bool) (rest : list JSON) : bool :=
  match rest with
  | _ :: value :: rest' => f value && allValues f rest'
  | _ => true
  end.

(** Bare scalars wrapped as literals, in the expression positions of the
    curves of a registry. *)
Fixpoint canonical (defs : gmap string Kind) (j : JSON) {struct j} : JSON :=
  match j with
  | JNull | JBool _ | JNum _ | JStr _ => JArr [JStr "literal"; j]
  | JArr (JStr op :: interpolation :: input :: rest) =>
      match defs !! op with
      | Some KCurve =>
          JArr (JStr op :: interpolation :: canonical defs input
                  :: mapValues (canonical defs) rest)
      | _ => j
      end
  | _ => j
  end.

(** An interpolation array with no element beyond those [Curve.parse]
    reads: the name alone for [step] and [linear], the name and the base for
    [exponential]. *)
Definition exactInterpolation (interpolation : JSON) : bool :=
  match interpolation with
  | JArr (name :: params) =>
      if isString name "step" || isString name "linear" then Nat.eqb (length params) 0
      else if isString name "exponential" then Nat.eqb (length params) 1
      else true
  | _ => true
  end.

(** Every curve of a raw expression has such an interpolation array. *)
Fixpoint exactCurves (defs : gmap string Kind) (j : JSON) {struct j} : bool :=
  match j with
  | JArr (JStr op :: interpolation :: input :: rest) =>
      match defs !! op with
      | Some KCurve =>
          exactInterpolation interpolation && exactCurves defs input
          && allValues (exactCurves defs) rest
      | _ => true
      end
  | _ => true
  end.

(** The definitions of this section describe the calls that end by
    returning: the operator is looked up among the own properties of the
    registry, and [String(x)] gives a string.  The calls that end with an
    exception are added in [Throwing] below. *)
Section Parser.

Variable toString : Expected -> string.

(** How [outputType.name] is rendered inside a message; the property
    belongs to the type objects of the absent [types] module. *)
Variable typeName : Ty -> string.

(** JavaScript's [String(x)] conversion, used in two messages. *)
Variable jsString : JSON -> string.

(** [parse] of the classes registered by the host, by class. *)
Variable otherParse : string -> list JSON -> ParsingContext -> Store -> option Expression * Store.

Definition msgInterpolation (v : JSON) : string :=
  "Expected an interpolation type expression, but found " +:+ jsString v +:+ " instead.".

Definition msgUnknownInterpolation (v : JSON) : string :=
  "Unknown interpolation type " +:+ jsString v.

Definition msgNotInterpolatable (t : Ty) (i : InterpolationType) : string :=
  "Type " +:+ typeName t +:+ " is not interpolatable, and thus cannot be used as a "
  +:+ interpolationName i +:+ " curve's output type.".

(** Lines 43-74 of [Curve.parse]: the interpolation argument. *)
Definition parseInterpolation (interpolation : JSON) (context : ParsingContext) (h : Store)
  : option InterpolationType * Store :=
  match interpolation with
  | JArr (name :: params) =>
      if isString name "step" then (Some Step, h)
      else if isString name "linear" then (Some Linear, h)
      else if isString name "exponential" then
        match hd JUndefined params with
        | JNum base => (Some (Exponential base), h)
        | _ => (None, error context msgBase [1; 1] h)
        end
      else if isString name "cubic-bezier" then
        if negb (Nat.eqb (length params) 4) || existsb badControlPoint params
        then (None, error context msgBezier [1] h)
        else (Some (CubicBezier (omap asNumber params)), h)
      else (None, error context (msgUnknownInterpolation name) [1; 0] h)
  | _ => (None, error context (msgInterpolation interpolation) [1] h)
  end.

(** What [parseExpression] does with [undefined]. *)
Definition parseUndefined (context : ParsingContext) (h : Store) : option Expression * Store :=
  (None, error context msgUndefined [] h).

(** [stops.length && stops[stops.length - 1][0] > label] *)
Definition descends (stops : Stops) (label : Q) : bool :=
  match last stops with
  | Some (previous, _) => Qgtb previous label
  | None => false
  end.

(** [outputType || parsed.type] *)
Definition orType (outputType : option Ty) (t : Ty) : option Ty :=
  match outputType with
  | Some o => Some o
  | None => Some t
  end.

(** One iteration of the loop over [rest], after the label tests: parse the
    value at child position [i + 4] and record the stop.  The context is
    derived with ['curve'] in the expected-type position, and the third
    argument that [Curve.parse] hands to [parseExpression] is dropped there,
    since [parseExpression] has two parameters. *)
Definition parseStop (parsedValue : option Expression * Store) (label : Q)
    (stops : Stops) (outputType : option Ty)
  : option (Stops * option Ty) * Store :=
  match parsedValue with
  | (None, h') => (None, h')
  | (Some parsed, h') =>
      (Some (stops ++ [(label, parsed)], orType outputType (exprType parsed)), h')
  end.

(** Lines 82-98: the loop [for (let i = 0; i < rest.length; i += 2)], as a
    recursion on what is left of [rest] from index [i] on.  When [rest] has
    odd length the last value is [rest[i + 1] = undefined]. *)
Fixpoint parseStops (parseExpression : Parse) (rest : list JSON) (i : nat)
    (stops : Stops) (outputType : option Ty) (context : ParsingContext) (h : Store)
  : option (Stops * option Ty) * Store :=
  match rest with
  | [] => (Some (stops, outputType), h)
  | JNum label :: rest1 =>
      if descends stops label then (None, error context msgAscending [i + 3] h)
      else
        let child := concat context (i + 4) (Some (ExpName "curve")) None in
        match rest1 with
        | [] => parseStop (parseUndefined child h) label stops outputType
        | value :: rest2 =>
            match parseStop (parseExpression value child h) label stops outputType with
            | (None, h') => (None, h')
            | (Some (stops', outputType'), h') =>
                parseStops parseExpression rest2 (i + 2) stops' outputType' context h'
            end
        end
  | _ :: _ => (None, error context msgLabel [i + 3] h)
  end.

(** Lines 100-107: the interpolatability test and the constructor.  The
    test compares the kind with the lower-case tag ['array'], and the types
    with the constants by identity. *)
Definition notInterpolatable (interpolation : InterpolationType) (outputType : Ty) : bool :=
  negb (String.eqb (interpolationName interpolation) "step")
  && negb (bool_decide (outputType = NumberType))
  && negb (bool_decide (outputType = ColorType))
  && negb (String.eqb (kind outputType) "array"
           && match outputType with
              | array itemType _ => bool_decide (itemType = NumberType)
              | _ => false
              end).

Definition finishCurve (context : ParsingContext) (interpolation : InterpolationType)
    (input : Expression) (stops : Stops) (outputType : option Ty) (h : Store)
  : option Expression * Store :=
  match outputType with
  | Some t =>
      if notInterpolatable interpolation t
      then (None, error context (msgNotInterpolatable t interpolation) [1] h)
      else (Some (Curve (key context) t interpolation input stops), h)
  | None => (None, h)
  end.

(** [Curve.parse(args, context, expectedType)].  [args] still has the
    operator in front; [tail args] is [args.slice(1)].  The last branch of
    the match is never taken, because of the length test before it
    ([Curve_parse_short]); neither is the [None] branch of [finishCurve],
    because at least one pair is parsed ([parseStops_outputType]). *)
Definition Curve_parse (parseExpression : Parse) (args : list JSON)
    (context : ParsingContext) (expectedType : option Ty) (h : Store)
  : option Expression * Store :=
  if Nat.ltb (length (tail args)) 4
  then (None, error context (msgTooFew (length (tail args))) [] h)
  else
    match args with
    | _ :: interpolation :: input :: rest =>
        match parseInterpolation interpolation context h with
        | (None, h1) => (None, h1)
        | (Some interpolation', h1) =>
            match parseExpression input (concat context 2 (Some (ExpName "curve")) None) h1 with
            | (None, h2) => (None, h2)
            | (Some input', h2) =>
                match parseStops parseExpression rest 0 [] expectedType context h2 with
                | (None, h3) => (None, h3)
                | (Some (stops, outputType), h3) =>
                    finishCurve context interpolation' input' stops outputType h3
                end
            end
        end
    | _ => (None, h)
    end.

(** [Expr.parse(expr, context)] for the class found in the registry: two
    arguments, so [Curve.parse] gets no [expectedType]. *)
Definition Expr_parse (parseExpression : Parse) (class : Kind) (expr : list JSON)
    (context : ParsingContext) (h : Store) : option Expression * Store :=
  match class with
  | KCurve => Curve_parse parseExpression expr context None h
  | KOther c => otherParse c expr context h
  end.

(** Lines 166-170: the check against [context.expectedType]. *)
Definition checkExpected (context : ParsingContext) (parsed : Expression) (h : Store)
  : option Expression * Store :=
  match expectedType context with
  | Some expected =>
      if truthy expected then
        match checkSubtype toString expected (exprType parsed) (Some context) h with
        | (Some _, h') => (None, h')
        | (None, h') => (Some parsed, h')
        end
      else (Some parsed, h)
  | None => (Some parsed, h)
  end.

(** Lines 151-173: the branch for arrays. *)
Definition parseArray (parseExpression : Parse) (expr : list JSON)
    (context : ParsingContext) (h : Store) : option Expression * Store :=
  match expr with
  | [] => (None, error context msgEmptyArray [] h)
  | JStr op :: _ =>
      match definitions context !! op with
      | Some class =>
          match Expr_parse parseExpression class expr context h with
          | (None, h') => (None, h')
          | (Some parsed, h') => checkExpected context parsed h'
          end
      | None => (None, error context (msgUnknown op) [0] h)
      end
  | op :: _ => (None, error context (msgOperatorName op) [0] h)
  end.

Fixpoint parseExpression (expr : JSON) (context : ParsingContext) (h : Store)
  {struct expr} : option Expression * Store :=
  match expr with
  | JNull | JStr _ | JBool _ | JNum _ =>
      parseArray parseExpression [JStr "literal"; expr] context h
  | JArr items => parseArray parseExpression items context h
  | JUndefined => parseUndefined context h
  | JObj _ => (None, error context msgBareObject [] h)
  | JOther _ => (None, error context (msgNotArray expr) [] h)
  end.

(** [serialize()]: [interp] is the name, followed by the base for
    [exponential] and by the control points for [cubic-bezier]. *)
Definition interpArray (interpolation : InterpolationType) : JSON :=
  JArr (JStr (interpolationName interpolation) ::
        match interpolation with
        | Exponential base => [JNum base]
        | CubicBezier controlPoints => map JNum controlPoints
        | _ => []
        end).

Fixpoint serialize (e : Expression) : JSON :=
  match e with
  | Curve _ _ interpolation input stops =>
      JArr (JStr "curve" :: interpArray interpolation :: serialize input ::
            flat_map (fun stop => [JNum stop.1; serialize stop.2]) stops)
  | Other _ _ serialized => serialized
  end.

Definition serializeStops (stops : Stops) : list JSON :=
  flat_map (fun stop => [JNum stop.1; serialize stop.2]) stops.

(** The classes of the host serialize an expression to the array it was
    parsed from. *)
Definition roundTrips : Prop :=
  forall class args context h e h',
    otherParse class args context h = (Some e, h') -> serialize e = JArr args.

(** The flattened label/value list of a list of pairs. *)
Definition flatten (pairs : list (JSON * JSON)) : list JSON :=
  flat_map (fun pair => [pair.1; pair.2]) pairs.

(** The first stop fixes the output type when [Curve.parse] is called
    without an expected type. *)
Definition typedByFirst (stops : Stops) (outputType : option Ty) : Prop :=
  match stops with
  | [] => outputType = None
  | (_, first) :: _ => outputType = Some (exprType first)
  end.



(** A parser for sub-expressions whose results serialize to the canonical
    form of what was parsed. *)
Definition comesBack (rec : Parse) (defs : gmap string Kind) (v : JSON) : Prop :=
  forall context h e h',
    definitions context = defs -> exactCurves defs v = true ->
    rec v context h = (Some e, h') -> serialize e = canonical defs v.

End Parser.

(** ** A concrete host

    The parts a host supplies, fixed to simple choices, so that the parser
    can be run on concrete inputs: a rendering of types, of [name]
    properties and of [String(x)], and two classes besides [Curve]:
    [Literal], whose instances are typed by the literal value, and [Error],
    whose instances have type [ErrorType]. *)

Module Host.

Fixpoint typeToString (t : Ty) : string :=
  match t with
  | array itemType (Some n) =>
      "Array<" +:+ typeToString itemType +:+ ", " +:+ showNat n +:+ ">"
  | array ValueType None => "Array"
  | array itemType None => "Array<" +:+ typeToString itemType +:+ ">"
  | _ => kind t
  end.

Definition toString (e : Expected) : string :=
  match e with
  | ExpType t => typeToString t
  | ExpName _ => "undefined"
  end.

Definition typeName (t : Ty) : string := "undefined".

Definition jsString (v : JSON) : string :=
  match v with
  | JStr s => s
  | JNull => "null"
  | JUndefined => "undefined"
  | JBool true => "true"
  | JBool false => "false"
  | _ => "[object]"
  end.

Definition literalType (v : JSON) : Ty :=
  match v with
  | JNull => NullType
  | JBool _ => BooleanType
  | JNum _ => NumberType
  | JStr _ => StringType
  | JArr items => array ValueType (Some (length items))
  | _ => ObjectType
  end.

Definition otherParse (class : string) (args : list JSON) (context : ParsingContext)
    (h : Store) : option Expression * Store :=
  if String.eqb class "Literal" then
    match args with
    | [_; v] => (Some (Other (key context) (literalType v) (JArr args)), h)
    | _ => (None, error context "'literal' expression requires exactly one argument." [] h)
    end
  else if String.eqb class "Error" then
    (Some (Other (key context) ErrorType (JArr args)), h)
  else (None, error context "Unknown class." [] h).

Definition registry : gmap string Kind :=
  <["curve" := KCurve]> (<["literal" := KOther "Literal"]> (<["error" := KOther "Error"]> ∅)).

Definition root : ParsingContext :=
  newParsingContext registry [] None (newScope None []) 0.

Definition emptyStore : Store := {[0 := []]}.

Definition parse : Parse := parseExpression toString typeName jsString otherParse.

Definition num (z : Z) : JSON := JNum (inject_Z z).
Definition err : JSON := JArr [JStr "error"].

End Host.

(** The arguments of a direct call of [Curve.parse] with the expected type
    [Number], and the curve it returns on the concrete host. *)
Definition bezierArgs : list JSON :=
  [JStr "curve"; JArr [JStr "cubic-bezier"; JNum 0; JNum (1 # 2); JNum 1; JNum 1];
   Host.err; JNum 0; Host.err; JNum 0; Host.err; JNum 3; Host.err].

Definition bezierCurve : Expression :=
  Curve EmptyString NumberType (CubicBezier [0%Q; (1 # 2)%Q; 1%Q; 1%Q])
    (Other "[2]" ErrorType Host.err)
    [(0%Q, Other "[4]" ErrorType Host.err); (0%Q, Other "[6]" ErrorType Host.err);
     (3%Q, Other "[8]" ErrorType Host.err)].

(** ** The subtype relation, structurally

    A description of which pairs [checkSubtype] accepts, by recursion on the
    actual type: [Error] is accepted everywhere, [Value] accepts everything,
    an array type accepts array types item by item, with the same length when
    it has one, and any other type accepts its own kind only.
    [checkSubtype_subtypeOf] shows that the checker computes this relation. *)

Definition sameLength (N N' : option nat) : bool :=
  match N with
  | Some n => bool_decide (N' = Some n)
  | None => true
  end.

Fixpoint subtypeOf (expected t : Ty) {struct t} : bool :=
  match t with
  | ErrorType => true
  | array itemType' N' =>
      match expected with
      | ValueType => true
      | array itemType N => subtypeOf itemType itemType' && sameLength N N'
      | _ => false
      end
  | _ =>
      match expected with
      | ValueType => true
      | array _ _ => false
      | _ => bool_decide (kind expected = kind t)
      end
  end.

(** ** Shapes of raw input *)

(** The values that [parseExpression] wraps as literals. *)
Definition isScalar (v : JSON) : bool :=
  match v with
  | JNull | JBool _ | JNum _ | JStr _ => true
  | _ => false
  end.

(** A context whose [key] is the one its constructor derives from its
    [path]. *)
Definition wellKeyed (c : ParsingContext) : Prop := key c = pathKey (path c).

(** Labels of which none is greater than the next, by the comparison [>]
    of line 90. *)
Fixpoint neverDescends (labels : list Q) : Prop :=
  match labels with
  | [] => True
  | x :: rest =>
      match rest with
      | [] => True
      | y :: _ => Qgtb x y = false /\ neverDescends rest
      end
  end.

(** A number for which neither test of line 63, [t < 0] and [t > 1],
    holds. *)
Definition passesBounds (t : Q) : Prop := Qltb t 0 = false /\ Qgtb t 1 = false.

(** The interpolations [Curve.parse] lets through: a cubic Bezier has four
    control points, each of which passes the two tests. *)
Definition wellFormedInterpolation (i : InterpolationType) : Prop :=
  match i with
  | CubicBezier controlPoints =>
      length controlPoints = 4 /\ Forall passesBounds controlPoints
  | _ => True
  end.

(** The registries that know no class but [Curve]. *)
Definition onlyCurve (defs : gmap string Kind) : Prop :=
  forall op class, defs !! op = Some class -> class = KCurve.

(** A raw value with no operator to dispatch on: not a scalar and not an
    array that starts with a string. *)
Definition malformed (v : JSON) : bool :=
  match v with
  | JNull | JBool _ | JNum _ | JStr _ => false
  | JArr (JStr _ :: _) => false
  | _ => true
  end.

(** The error [parseExpression] reports for such a value: the message and
    the child positions added to the key of the context. *)
Definition malformedReport (v : JSON) : string * list nat :=
  match v with
  | JArr [] => (msgEmptyArray, [])
  | JArr (op :: _) => (msgOperatorName op, [0])
  | JUndefined => (msgUndefined, [])
  | JObj _ => (msgBareObject, [])
  | _ => (msgNotArray v, [])
  end.

(** A parser for sub-expressions that does not tell a raw value from its
    canonical form. *)
Definition canonicalBlind (rec : Parse) (defs : gmap string Kind) (v : JSON) : Prop :=
  forall context h,
    definitions context = defs -> rec (canonical defs v) context h = rec v context h.

(** ** The parser with its exceptions

    The parser above describes the runs of [parseExpression] in which no
    exception is thrown.  The source throws a [TypeError] in two places.  The
    registry is an object read with [context.definitions[op]]: for a name
    that the object does not hold itself but inherits from its prototype (for
    a plain object: ['constructor'], ['toString'], ['__proto__'], ...) the
    test [if (Expr)] passes, and [Expr.parse] is not a function.  And
    [String(x)], which builds two messages of [Curve.parse], throws for an
    object whose [toString] and [valueOf] give no primitive value, such as
    [{"toString": 1}].  The definitions of this module follow the same lines
    of the source as the ones above, with a third outcome for the
    exception. *)

Inductive Result (A : Type) : Type :=
| Returned (a : A)
| ReturnedNull
| Thrown.

Arguments Returned {A} a.
Arguments ReturnedNull {A}.
Arguments Thrown {A}.

(** A result of the parser above, as a result without exception. *)
Definition completed {A : Type} (res : option A * Store) : Result A * Store :=
  match res with
  | (Some a, h) => (Returned a, h)
  | (None, h) => (ReturnedNull, h)
  end.

(** What [context.definitions[op]] evaluates to. *)
Inductive Found : Type :=
| FoundClass (class : Kind)
| FoundInherited
| FoundNothing.

Module Throwing.

Section Parser.

Variable toString : Expected -> string.
Variable typeName : Ty -> string.

(** [String(x)]; [None] when it throws. *)
Variable jsString : JSON -> option string.

(** The names that the registry object inherits from its prototype.  The
    values found under them are truthy and have no [parse] method. *)
Variable inherited : string -> bool.

(** [parse] of the classes registered by the host; they are taken not to
    throw. *)
Variable otherParse : string -> list JSON -> ParsingContext -> Store -> option Expression * Store.

Definition Parse : Type :=
  JSON -> ParsingContext -> Store -> Result Expression * Store.

Definition lookup (context : ParsingContext) (op : string) : Found :=
  match definitions context !! op with
  | Some class => FoundClass class
  | None => if inherited op then FoundInherited else FoundNothing
  end.

(** [context.error(`... ${String(v)} ...`, ...keys)]: the message is built
    first, so nothing is pushed when [String(v)] throws. *)
Definition errorWithString {A : Type} (context : ParsingContext) (v : JSON)
    (message : string -> string) (keys : list nat) (h : Store) : Result A * Store :=
  match jsString v with
  | Some s => (ReturnedNull, error context (message s) keys h)
  | None => (Thrown, h)
  end.

Definition msgInterpolationOf (s : string) : string :=
  "Expected an interpolation type expression, but found " +:+ s +:+ " instead.".

Definition msgUnknownInterpolationOf (s : string) : string :=
  "Unknown interpolation type " +:+ s.

(** Lines 43-74 of [Curve.parse]. *)
Definition parseInterpolation (interpolation : JSON) (context : ParsingContext) (h : Store)
  : Result InterpolationType * Store :=
  match interpolation with
  | JArr (name :: params) =>
      if isString name "step" then (Returned Step, h)
      else if isString name "linear" then (Returned Linear, h)
      else if isString name "exponential" then
        match hd JUndefined params with
        | JNum base => (Returned (Exponential base), h)
        | _ => (ReturnedNull, error context msgBase [1; 1] h)
        end
      else if isString name "cubic-bezier" then
        if negb (Nat.eqb (length params) 4) || existsb badControlPoint params
        then (ReturnedNull, error context msgBezier [1] h)
        else (Returned (CubicBezier (omap asNumber params)), h)
      else errorWithString context name msgUnknownInterpolationOf [1; 0] h
  | _ => errorWithString context interpolation msgInterpolationOf [1] h
  end.

(** Lines 82-98 of [Curve.parse]; an exception thrown while a value is
    parsed ends the loop. *)
Fixpoint parseStops (parseExpression : Parse) (rest : list JSON) (i : nat)
    (stops : Stops) (outputType : option Ty) (context : ParsingContext) (h : Store)
  : Result (Stops * option Ty) * Store :=
  match rest with
  | [] => (Returned (stops, outputType), h)
  | JNum label :: rest1 =>
      if descends stops label then (ReturnedNull, error context msgAscending [i + 3] h)
      else
        let child := concat context (i + 4) (Some (ExpName "curve")) None in
        match rest1 with
        | [] => (ReturnedNull, error child msgUndefined [] h)
        | value :: rest2 =>
            match parseExpression value child h with
            | (Thrown, h') => (Thrown, h')
            | (ReturnedNull, h') => (ReturnedNull, h')
            | (Returned parsed, h') =>
                parseStops parseExpression rest2 (i + 2) (stops ++ [(label, parsed)])
                  (orType outputType (exprType parsed)) context h'
            end
        end
  | _ :: _ => (ReturnedNull, error context msgLabel [i + 3] h)
  end.

(** [Curve.parse(args, context, expectedType)]; the last branch of the
    match is never taken, as in the parser above. *)
Definition Curve_parse (parseExpression : Parse) (args : list JSON)
    (context : ParsingContext) (expectedType : option Ty) (h : Store)
  : Result Expression * Store :=
  if Nat.ltb (length (tail args)) 4
  then (ReturnedNull, error context (msgTooFew (length (tail args))) [] h)
  else
    match args with
    | _ :: interpolation :: input :: rest =>
        match parseInterpolation interpolation context h with
        | (Thrown, h1) => (Thrown, h1)
        | (ReturnedNull, h1) => (ReturnedNull, h1)
        | (Returned interpolation', h1) =>
            match parseExpression input (concat context 2 (Some (ExpName "curve")) None) h1 with
            | (Thrown, h2) => (Thrown, h2)
            | (ReturnedNull, h2) => (ReturnedNull, h2)
            | (Returned input', h2) =>
                match parseStops parseExpression rest 0 [] expectedType context h2 with
                | (Thrown, h3) => (Thrown, h3)
                | (ReturnedNull, h3) => (ReturnedNull, h3)
                | (Returned (stops, outputType), h3) =>
                    completed (finishCurve typeName context interpolation' input' stops
                                 outputType h3)
                end
            end
        end
    | _ => (ReturnedNull, h)
    end.

(** Lines 151-173 of [parseExpression]. *)
Definition parseArray (parseExpression : Parse) (expr : list JSON)
    (context : ParsingContext) (h : Store) : Result Expression * Store :=
  match expr with
  | [] => (ReturnedNull, error context msgEmptyArray [] h)
  | JStr op :: _ =>
      match lookup context op with
      | FoundClass class =>
          match match class with
                | KCurve => Curve_parse parseExpression expr context None h
                | KOther c => completed (otherParse c expr context h)
                end with
          | (Thrown, h') => (Thrown, h')
          | (ReturnedNull, h') => (ReturnedNull, h')
          | (Returned parsed, h') => completed (checkExpected toString context parsed h')
          end
      | FoundInherited => (Thrown, h)
      | FoundNothing => (ReturnedNull, error context (msgUnknown op) [0] h)
      end
  | op :: _ => (ReturnedNull, error context (msgOperatorName op) [0] h)
  end.

Fixpoint parseExpression (expr : JSON) (context : ParsingContext) (h : Store)
  {struct expr} : Result Expression * Store :=
  match expr with
  | JNull | JStr _ | JBool _ | JNum _ =>
      parseArray parseExpression [JStr "literal"; expr] context h
  | JArr items => parseArray parseExpression items context h
  | JUndefined => (ReturnedNull, error context msgUndefined [] h)
  | JObj _ => (ReturnedNull, error context msgBareObject [] h)
  | JOther _ => (ReturnedNull, error context (msgNotArray expr) [] h)
  end.

End Parser.

End Throwing.

(** The error discipline of a call that may throw: a call that returns an
    expression or throws leaves the store as it was, and a call that returns
    [null] has pushed one error onto the [errors] array of the context, an
    error that satisfies [P]. *)
Definition reported {A : Type} (P : ParsingContext -> ParsingError -> Prop)
    (c : ParsingContext) (h : Store) (res : Result A * Store) : Prop :=
  match res.1 with
  | Returned _ => res.2 = h
  | ReturnedNull => exists e, res.2 = push (errors c) e h /\ P c e
  | Thrown => res.2 = h
  end.

(** A parser for sub-expressions that keeps that discipline in the contexts
    that satisfy [I]. *)
Definition reports (I : ParsingContext -> Prop)
    (P : ParsingContext -> ParsingError -> Prop) (rec : Throwing.Parse) (v : JSON) : Prop :=
  forall context h, I context -> reported P context h (rec v context h).

(** A parser for sub-expressions that returns no expression under a
    registry that knows no class but [Curve]. *)
Definition returnsNothing (rec : Throwing.Parse) (v : JSON) : Prop :=
  forall context h e, onlyCurve (definitions context) -> (rec v context h).1 ≠ Returned e.

(** A parser for sub-expressions that, unless it throws, does what the
    parser without exceptions does. *)
Definition agrees (rec : Throwing.Parse) (total : Parse) (v : JSON) : Prop :=
  forall context h,
    (rec v context h).1 ≠ Thrown -> rec v context h = completed (total v context h).

(** An error whose key starts with the key of the context. *)
Definition keyedUnder (c : ParsingContext) (e : ParsingError) : Prop :=
  exists suffix, errKey e = key c +:+ suffix.

(** The names a plain object inherits from [Object.prototype]. *)
Definition objectPrototypeNames : list string :=
  ["constructor"; "__defineGetter__"; "__defineSetter__"; "hasOwnProperty";
   "__lookupGetter__"; "__lookupSetter__"; "isPrototypeOf"; "propertyIsEnumerable";
   "toString"; "valueOf"; "__proto__"; "toLocaleString"].

Definition inheritedName (name : string) : bool :=
  bool_decide (name ∈ objectPrototypeNames).

(** The bindings of a frame are a plain object too, filled by assignments
    [this.bindings[name] = expression] and read with [this.bindings[name]].
    Reading finds the inherited names as well, and an assignment to
    ['__proto__'] does not create a property: it makes the expression the
    prototype of the frame, which [bindings['__proto__']] then returns and
    from which the frame inherits instead of [Object.prototype]. *)

(** What reading a frame gives, when it is truthy: an expression, or a value
    that is not one of the bound expressions. *)
Inductive Bound : Type :=
| BoundExpression (e : Expression)
| BoundInherited.

Module PlainObject.

Section Scope.

(** [member proto name]: the property [name] of an expression object,
    [None] when it is missing or falsy.  It depends on the expression
    classes of the host. *)
Variable member : Expression -> string -> option Bound.

(** [this.bindings[name]], [None] when it is undefined or falsy. *)
Definition read (bindings : gmap string Expression) (name : string) : option Bound :=
  match bindings !! name with
  | Some e => Some (BoundExpression e)
  | None =>
      match bindings !! "__proto__" with
      | Some proto => member proto name
      | None => if inheritedName name then Some BoundInherited else None
      end
  end.

Fixpoint Scope_has (s : Scope) (name : string) : bool :=
  match s with
  | mkScope parent bindings =>
      match read bindings name with
      | Some _ => true
      | None => match parent with Some p => Scope_has p name | None => false end
      end
  end.

(** [get] throws when no frame gives a truthy value; [None] stands for
    that. *)
Fixpoint Scope_get (s : Scope) (name : string) : option Bound :=
  match s with
  | mkScope parent bindings =>
      match read bindings name with
      | Some v => Some v
      | None => match parent with Some p => Scope_get p name | None => None end
      end
  end.

End Scope.

End PlainObject.

(** The scopes in which no frame binds ['__proto__']: every frame inherits
    from [Object.prototype]. *)
Fixpoint noProtoBinding (s : Scope) : Prop :=
  match s with
  | mkScope parent bindings =>
      bindings !! "__proto__" = None
      /\ match parent with
         | Some p => noProtoBinding p
         | None => True
         end
  end.

(** The concrete host again, with a registry that is a plain object and a
    [String(x)] that throws for an object with a [toString] entry that is
    not a function. *)
Module HostT.

Definition jsString (v : JSON) : option string :=
  match v with
  | JObj fields =>
      match list_find (fun field => bool_decide (field.1 = "toString")) fields with
      | Some (_, (_, JOther AFunction)) => Some "[object]"
      | Some _ => None
      | None => Some "[object Object]"
      end
  | _ => Some (Host.jsString v)
  end.

Definition parse : Throwing.Parse :=
  Throwing.parseExpression Host.toString Host.typeName jsString inheritedName Host.otherParse.

End HostT.

(** * Properties *)

(** ** Induction on raw values, with the array items covered *)

Lemma JSON_nested_ind (P : JSON -> Prop)
    (Hnull : P JNull) (Hbool : forall b, P (JBool b)) (Hnum : forall q, P (JNum q))
    (Hstr : forall s, P (JStr s))
    (Harr : forall items, Forall P items -> P (JArr items))
    (Hobj : forall fields, P (JObj fields))
    (Hundef : P JUndefined) (Hother : forall n, P (JOther n)) :
  forall v, P v.
Proof.
  fix self 1. intros [|b|q|s|items|fields| |n].
  - exact Hnull.
  - exact (Hbool b).
  - exact (Hnum q).
  - exact (Hstr s).
  - apply Harr. induction items as [|x xs IHxs]; constructor; [apply self | exact IHxs].
  - exact (Hobj fields).
  - exact Hundef.
  - exact (Hother n).
Qed.

(** ** Facts about the store *)

Lemma readErrors_push l e h : readErrors (push l e h) l = readErrors h l ++ [e].
Proof. unfold readErrors, push. by rewrite lookup_insert_eq. Qed.

Lemma readErrors_push_ne l l' e h : l ≠ l' -> readErrors (push l e h) l' = readErrors h l'.
Proof. intros Hne. unfold readErrors, push. by rewrite lookup_insert_ne. Qed.

Lemma push_changes l e h : push l e h ≠ h.
Proof.
  intros Heq. assert (H : readErrors (push l e h) l = readErrors h l) by by rewrite Heq.
  rewrite readErrors_push in H.
  apply (f_equal length) in H. rewrite length_app in H. simpl in H. lia.
Qed.

Lemma error_changes c msg keys h : error c msg keys h ≠ h.
Proof. apply push_changes. Qed.

Lemma readErrors_error c msg keys h :
  readErrors (error c msg keys h) (errors c)
  = readErrors h (errors c)
    ++ [mkParsingError (key c +:+ String.concat EmptyString (map bracket keys)) msg].
Proof. apply readErrors_push. Qed.

(** ** The subtype checker *)

Section CheckerFacts.

Variable toString : Expected -> string.


Lemma anyMember_ext (F G : Check) ms t h :
  (forall m h', m ∈ ms -> F (ExpType m) t None h' = G (ExpType m) t None h') ->
  anyMember F ms t h = anyMember G ms t h.
Proof.
  revert h. induction ms as [|m ms IH]; intros h Hext; simpl; [done|].
  rewrite Hext by set_solver.
  destruct (G (ExpType m) t None h) as [[msg|] h']; [|done].
  apply IH. intros; apply Hext; set_solver.
Qed.

Lemma checkSubtypeBody_ext (F G : Check) expected t context h :
  (forall m h', m ∈ members -> expected = ExpType ValueType ->
                F (ExpType m) t None h' = G (ExpType m) t None h') ->
  (forall itemType N itemType' N' h',
      expected = ExpType (array itemType N) -> t = array itemType' N' ->
      F (ExpType itemType) itemType' None h' = G (ExpType itemType) itemType' None h') ->
  checkSubtypeBody toString F expected t context h = checkSubtypeBody toString G expected t context h.
Proof.
  intros Hm Ha. unfold checkSubtypeBody.
  destruct expected as [[| | | | | | | |itemType N]|s]; destruct t; try reflexivity;
    try (rewrite (anyMember_ext F G) by (intros; by apply Hm); reflexivity).
  by rewrite (Ha itemType N t N0 h).
Qed.

Lemma members_not_Value m : m ∈ members -> m ≠ ValueType.
Proof.
  unfold members. intros Hin ->.
  repeat (apply elem_of_cons in Hin as [Hin|Hin]; [discriminate|]).
  by apply elem_of_nil in Hin.
Qed.

Lemma need_member m t : m ∈ members -> need (ExpType m) t = 2 * tySize t.
Proof.
  intros Hin. unfold need. pose proof (members_not_Value m Hin).
  destruct m; try done; lia.
Qed.

Lemma checkSubtypeFuel_enough n m expected t context h :
  need expected t < n -> need expected t < m ->
  checkSubtypeFuel toString n expected t context h = checkSubtypeFuel toString m expected t context h.
Proof.
  revert m expected t context h.
  induction n as [|n IH]; intros m expected t context h Hn Hm; [lia|].
  destruct m as [|m]; [lia|]. simpl.
  apply checkSubtypeBody_ext.
  - intros mem h' Hin ->. apply IH; rewrite need_member by done; unfold need in *; lia.
  - intros itemType N itemType' N' h' -> ->.
    unfold need in Hn, Hm; simpl in Hn, Hm.
    apply IH; unfold need; destruct itemType; lia.
Qed.

(** [checkSubtype] satisfies the equation of the source function: the
    counter never runs out. *)
Lemma checkSubtype_unfold expected t context h :
  checkSubtype toString expected t context h = checkSubtypeBody toString (checkSubtype toString) expected t context h.
Proof.
  unfold checkSubtype at 1.
  replace (2 * tySize t + 2) with (S (2 * tySize t + 1)) by lia. simpl.
  apply checkSubtypeBody_ext.
  - intros mem h' Hin ->. unfold checkSubtype.
    apply checkSubtypeFuel_enough; rewrite need_member by done; lia.
  - intros itemType N itemType' N' h' -> ->. unfold checkSubtype.
    apply checkSubtypeFuel_enough; unfold need; simpl; destruct itemType; lia.
Qed.

(** A call either returns [null] and leaves the store alone, or takes the
    one failure exit [reject]. *)
Lemma checkSubtypeFuel_outcome n expected t context h :
  checkSubtypeFuel toString n expected t context h = (None, h)
  \/ checkSubtypeFuel toString n expected t context h = reject toString expected t context h.
Proof.
  revert expected t context h. induction n as [|n IH]; intros; [by left|].
  assert (Hany : forall ms h0, (anyMember (checkSubtypeFuel toString n) ms t h0).2 = h0).
  { induction ms as [|m ms IHms]; intros h0; simpl; [done|].
    destruct (IH (ExpType m) t None h0) as [-> | ->]; simpl; [done | apply IHms]. }
  simpl. unfold checkSubtypeBody.
  destruct expected as [[| | | | | | | |itemType N]|s]; destruct t;
    try (by left); try (by right);
    try (case_decide; by auto);
    try (specialize (Hany members h);
         destruct (anyMember _ members _ h) as [[|] h']; simpl in Hany; subst h'; by auto).
  destruct (IH (ExpType itemType) t None h) as [-> | ->]; simpl; [|by right].
  destruct N as [n0|]; [case_decide|]; by auto.
Qed.

Lemma checkSubtype_outcome expected t context h :
  checkSubtype toString expected t context h = (None, h)
  \/ checkSubtype toString expected t context h = reject toString expected t context h.
Proof. apply checkSubtypeFuel_outcome. Qed.

Lemma checkSubtype_no_context expected t h :
  (checkSubtype toString expected t None h).2 = h.
Proof. by destruct (checkSubtype_outcome expected t None h) as [-> | ->]. Qed.

(** The loop over the members, read off as a test on the list. *)
Lemma anyMember_checkSubtype ms t h :
  anyMember (checkSubtype toString) ms t h
  = (existsb (fun m => bool_decide ((checkSubtype toString (ExpType m) t None h).1 = None)) ms, h).
Proof.
  induction ms as [|m ms IH]; simpl; [done|].
  pose proof (checkSubtype_no_context (ExpType m) t h) as Hst.
  destruct (checkSubtype toString (ExpType m) t None h) as [[msg|] h']; simpl in *; subst h'.
  - by rewrite IH.
  - done.
Qed.

Lemma existsb_members (f : Ty -> bool) ms :
  existsb f ms = true <-> exists m, m ∈ ms /\ f m = true.
Proof.
  rewrite existsb_exists. split; intros (m & Hin & Hf); exists m;
    (split; [by apply list_elem_of_In | done]).
Qed.

Lemma checkSubtype_Value_branch t context h :
  t ≠ ValueType -> t ≠ ErrorType ->
  checkSubtype toString (ExpType ValueType) t context h
  = if existsb (accepts toString t h) members then (None, h)
    else reject toString (ExpType ValueType) t context h.
Proof.
  intros Hv He. rewrite checkSubtype_unfold. unfold checkSubtypeBody.
  destruct t; try done; by rewrite anyMember_checkSubtype.
Qed.

(** Every actual type is accepted where [Value] is expected: the failure
    exit of that branch is never taken. *)
Lemma checkSubtype_Value_accepts t context h :
  checkSubtype toString (ExpType ValueType) t context h = (None, h).
Proof.
  revert context h. induction t as [| | | | | | | |itemType IH N]; intros context h;
    rewrite checkSubtype_unfold; unfold checkSubtypeBody;
    try reflexivity;
    rewrite anyMember_checkSubtype;
    try (unfold members; simpl; rewrite !checkSubtype_unfold; reflexivity).
  replace (existsb _ members) with true; [done|].
  symmetry. apply existsb_members. exists (array ValueType None). split.
  - unfold members. set_solver.
  - apply bool_decide_eq_true_2. rewrite checkSubtype_unfold. unfold checkSubtypeBody.
    by rewrite IH.
Qed.

(** C2 (as amended): with [Value] expected, the checker accepts the actual
    types [Value], [Array(Value, unconstrained)] and also [Number], which is
    one of the members of [Value]; no error message is returned and the
    store is left as it was. *)
Theorem checkSubtype_Value_examples context h :
  checkSubtype toString (ExpType ValueType) ValueType context h = (None, h)
  /\ checkSubtype toString (ExpType ValueType) (array ValueType None) context h = (None, h)
  /\ checkSubtype toString (ExpType ValueType) NumberType context h = (None, h).
Proof. repeat split; reflexivity. Qed.

(** C3: with [Value] expected, the checker accepts [Value]; any other actual
    type is accepted exactly when one of the seven members accepts it.  The
    attempts on the members leave the store as it was: on success the store
    is unchanged, and on failure the only change is the single error that
    [reject] pushes for the outer call, whose message names [Value] and the
    actual type. *)
Theorem checkSubtype_Value_members t context h :
  ((checkSubtype toString (ExpType ValueType) t context h).1 = None <->
     t = ValueType
     \/ exists m, m ∈ members /\ (checkSubtype toString (ExpType m) t None h).1 = None)
  /\ (forall m h0, m ∈ members -> (checkSubtype toString (ExpType m) t None h0).2 = h0)
  /\ (checkSubtype toString (ExpType ValueType) t context h = (None, h)
      \/ checkSubtype toString (ExpType ValueType) t context h
         = (Some (subtypeMessage toString (ExpType ValueType) t),
            match context with
            | Some c => error c (subtypeMessage toString (ExpType ValueType) t) [] h
            | None => h
            end)).
Proof.
  split; [|split].
  - destruct (decide (t = ValueType)) as [-> | Hv]; [split; [by left | done]|].
    destruct (decide (t = ErrorType)) as [-> | He].
    { split; [|done]. intros _. right. exists NullType. split; [|done].
      unfold members. set_solver. }
    rewrite (checkSubtype_Value_branch t context h Hv He).
    pose proof (existsb_members (accepts toString t h) members) as Hex.
    destruct (existsb (accepts toString t h) members); simpl.
    + split; [|done]. intros _. right.
      destruct (proj1 Hex eq_refl) as (m & Hin & Hm).
      exists m. split; [done | by apply bool_decide_eq_true_1 in Hm].
    + split; [discriminate|]. intros [Heq | (m & Hin & Hm)]; [done|].
      assert (false = true) as Hft; [|discriminate Hft].
      apply Hex. exists m. split; [done | by apply bool_decide_eq_true_2].
  - intros m h0 _. apply checkSubtype_no_context.
  - apply checkSubtype_outcome.
Qed.

(** C4 (as amended): with [Array(itemType, length)] expected, the checker
    accepts the actual type [t] exactly when [t] is [Error], or [t] is
    [Array(itemType', length')] with [itemType'] accepted where [itemType] is
    expected and [length] unconstrained or equal to [length'].  In
    particular [Array(Number, 3)] accepts [Array(Number, 3)] and rejects
    [Array(Number, 4)], and [Array(Number, unconstrained)] accepts
    [Array(Number, 4)]. *)
Theorem checkSubtype_Array itemType N t context h :
  ((checkSubtype toString (ExpType (array itemType N)) t context h).1 = None <->
     t = ErrorType
     \/ exists itemType' N',
         t = array itemType' N'
         /\ (checkSubtype toString (ExpType itemType) itemType' None h).1 = None
         /\ (N = None \/ N = N'))
  /\ (checkSubtype toString (ExpType (array NumberType (Some 3)))
        (array NumberType (Some 3)) context h).1 = None
  /\ (checkSubtype toString (ExpType (array NumberType (Some 3)))
        (array NumberType (Some 4)) context h).1
     = Some (subtypeMessage toString (ExpType (array NumberType (Some 3)))
               (array NumberType (Some 4)))
  /\ (checkSubtype toString (ExpType (array NumberType None))
        (array NumberType (Some 4)) context h).1 = None.
Proof.
  split; [|repeat split; reflexivity].
  rewrite checkSubtype_unfold. unfold checkSubtypeBody.
  destruct t as [| | | | | | | |itemType' N'];
    try (split; [discriminate | intros [Hv | (i' & n' & Heq & _)]; discriminate]).
  - split; [by left | done].
  - destruct (checkSubtype toString (ExpType itemType) itemType' None h)
      as [[msg|] h'] eqn:Hitem; simpl.
    + split; [discriminate|]. intros [Hv | (i' & n' & Heq & Hi & _)]; [discriminate|].
      injection Heq as <- <-. rewrite Hitem in Hi. discriminate.
    + destruct N as [n|].
      * case_decide as Hn; simpl.
        -- split; [|done]. intros _. right. exists itemType', N'.
           rewrite Hitem. repeat split; auto.
        -- split; [discriminate|].
           intros [Hv | (i' & n' & Heq & _ & [Hnone | Hsame])]; try discriminate.
           injection Heq as <- <-. by destruct Hn.
      * split; [|done]. intros _. right. exists itemType', N'.
        rewrite Hitem. repeat split; auto.
Qed.

End CheckerFacts.

(** C2, counterexample: with [Value] expected and [Number] actual the
    checker returns no error message, so it does not fail there. *)
Lemma checkSubtype_Value_Number_no_failure :
  ~ (exists message,
        (checkSubtype Host.toString (ExpType ValueType) NumberType None Host.emptyStore).1
        = Some message).
Proof. intros [message Hm]. vm_compute in Hm. discriminate. Qed.

(** C4, counterexample: the actual type [Error] is accepted where
    [Array(Number, 3)] is expected, although it is not an array type. *)
Lemma checkSubtype_Array_Error_accepted :
  ~ ((checkSubtype Host.toString (ExpType (array NumberType (Some 3))) ErrorType None
        Host.emptyStore).1 = None <->
     exists itemType' N',
       ErrorType = array itemType' N'
       /\ (checkSubtype Host.toString (ExpType NumberType) itemType' None Host.emptyStore).1
          = None
       /\ (Some 3 = None \/ Some 3 = N')).
Proof.
  intros [Hsucc _]. destruct (Hsucc eq_refl) as (i' & n' & Heq & _). discriminate.
Qed.

(** ** The parsing context *)

(** C9: [c.concat(i, T, bindings)] yields a context whose path is [c]'s path
    extended with [i] (and whose key is derived from that path), whose
    registry is [c]'s, whose [errors] is the same array as [c]'s (an error
    reported through the child is appended to the array [c] reads), whose
    scope is [c]'s scope, or a new frame over it when bindings are given, and
    whose expected type is [T] when supplied and absent otherwise, whatever
    [c]'s own expected type is.  [concat] only reads [c]. *)
Theorem concat_child (c : ParsingContext) (i : nat) (T : option Ty)
    (bindings : option (list (string * Expression))) :
  let child := concat c i (ExpType <$> T) bindings in
  path child = path c ++ [i]
  /\ key child = pathKey (path c ++ [i])
  /\ definitions child = definitions c
  /\ errors child = errors c
  /\ (forall message keys h,
        readErrors (error child message keys h) (errors c)
        = readErrors h (errors c)
          ++ [mkParsingError (key child +:+ String.concat EmptyString (map bracket keys))
                message])
  /\ scope child = match bindings with
                   | Some bs => newScope (Some (scope c)) bs
                   | None => scope c
                   end
  /\ expectedType child = ExpType <$> T.
Proof.
  intros child. split_and!; try reflexivity.
  - intros message keys h. apply (readErrors_error child).
  - subst child. by destruct T.
Qed.

Lemma errors_concat c i expected bindings : errors (concat c i expected bindings) = errors c.
Proof. reflexivity. Qed.

Lemma key_concat c i expected bindings :
  key (concat c i expected bindings) = pathKey (path c ++ [i]).
Proof. reflexivity. Qed.

(** ** The parser: the error discipline *)

Section ParserFacts.

Variable toString : Expected -> string.
Variable typeName : Ty -> string.
Variable jsString : JSON -> string.
Variable otherParse : string -> list JSON -> ParsingContext -> Store -> option Expression * Store.



(** Once a pair has been parsed the output type is set. *)
Lemma parseStops_outputType (rec : Parse) n :
  forall rest, length rest <= n ->
  forall i stops outputType context h stops' outputType' h',
    parseStops rec rest i stops outputType context h = (Some (stops', outputType'), h') ->
    rest ≠ [] \/ is_Some outputType -> is_Some outputType'.
Proof.
  induction n as [|n IH]; intros rest Hlen i stops outputType context h stops' outputType' h' Hrun Hset.
  { destruct rest; [|simpl in Hlen; lia]. simpl in Hrun. injection Hrun as <- <- <-.
    by destruct Hset. }
  destruct rest as [|label rest1].
  { simpl in Hrun. injection Hrun as <- <- <-. by destruct Hset. }
  destruct label; simpl in Hrun; try discriminate.
  destruct (descends stops q); [discriminate|].
  destruct rest1 as [|value rest2]; [discriminate|].
  destruct (rec value _ h) as [[parsed|] h1]; simpl in Hrun; [|discriminate].
  eapply IH in Hrun; [done | simpl in Hlen; lia |].
  right. by destruct outputType.
Qed.

Lemma Curve_parse_short (rec : Parse) args context expectedType h :
  length (tail args) < 4 ->
  Curve_parse typeName jsString rec args context expectedType h
  = (None, error context (msgTooFew (length (tail args))) [] h).
Proof.
  intros Hlen. unfold Curve_parse.
  by destruct (Nat.ltb_spec (length (tail args)) 4); [|lia].
Qed.

(** With four arguments or more the match of [Curve_parse] takes its first
    branch. *)
Lemma Curve_parse_long (rec : Parse) op interpolation input rest context expectedType h :
  2 <= length rest ->
  Curve_parse typeName jsString rec (op :: interpolation :: input :: rest) context expectedType h
  = match parseInterpolation jsString interpolation context h with
    | (None, h1) => (None, h1)
    | (Some interpolation', h1) =>
        match rec input (concat context 2 (Some (ExpName "curve")) None) h1 with
        | (None, h2) => (None, h2)
        | (Some input', h2) =>
            match parseStops rec rest 0 [] expectedType context h2 with
            | (None, h3) => (None, h3)
            | (Some (stops, outputType), h3) =>
                finishCurve typeName context interpolation' input' stops outputType h3
            end
        end
    end.
Proof.
  intros Hlen. unfold Curve_parse.
  destruct (Nat.ltb_spec (length (tail (op :: interpolation :: input :: rest))) 4) as [Hlt|_];
    [simpl in Hlt; lia | done].
Qed.

Lemma Curve_parse_cases (args : list JSON) :
  length (tail args) < 4
  \/ exists op interpolation input rest,
      args = op :: interpolation :: input :: rest /\ 2 <= length rest.
Proof.
  destruct args as [|op [|interpolation [|input rest]]]; simpl; try (left; lia).
  destruct (le_lt_dec 2 (length rest)); [right; eauto 10 | left; lia].
Qed.

(** C5: when the operator is registered and the parser of its class
    returns an expression, [parseExpression] returns that expression
    unconditionally if the context has no expected type; if it has one, the
    subtype checker is run on it and the type of the parsed expression, with
    the context as the sink, the expression is returned exactly when the
    checker accepts, nothing is returned when it does not, and the store is
    the one the checker leaves. *)
Theorem parseExpression_expected op items class context h parsed h1 :
  definitions context !! op = Some class ->
  Expr_parse typeName jsString otherParse
    (parseExpression toString typeName jsString otherParse) class (JStr op :: items) context h
  = (Some parsed, h1) ->
  let res := parseExpression toString typeName jsString otherParse
               (JArr (JStr op :: items)) context h in
  (expectedType context = None -> res = (Some parsed, h1))
  /\ (forall expected,
        expectedType context = Some expected -> truthy expected = true ->
        let verdict := checkSubtype toString expected (exprType parsed) (Some context) h1 in
        (res.1 = Some parsed <-> verdict.1 = None)
        /\ (verdict.1 ≠ None -> res.1 = None)
        /\ res.2 = verdict.2).
Proof.
  intros Hop Hparse res.
  assert (Hres : res = checkExpected toString context parsed h1).
  { subst res. change (parseExpression toString typeName jsString otherParse
                         (JArr (JStr op :: items)) context h)
      with (parseArray toString typeName jsString otherParse
              (parseExpression toString typeName jsString otherParse)
              (JStr op :: items) context h).
    unfold parseArray. by rewrite Hop, Hparse. }
  rewrite Hres. unfold checkExpected. split.
  - by intros ->.
  - intros expected -> ->. simpl.
    destruct (checkSubtype toString expected (exprType parsed) (Some context) h1)
      as [[message|] h2]; simpl; split_and!; try done.
Qed.

End ParserFacts.


Lemma parseExpression_expected_witness :
  let context := newParsingContext Host.registry [] (Some (ExpType NumberType))
                   (newScope None []) 0 in
  let res := Host.parse (JArr [JStr "literal"; JStr "a"]) context Host.emptyStore in
  (expectedType context = None ->
   res = (Some (Other EmptyString StringType (JArr [JStr "literal"; JStr "a"])),
          Host.emptyStore))
  /\ (forall expected,
        expectedType context = Some expected -> truthy expected = true ->
        let verdict := checkSubtype Host.toString expected StringType (Some context)
                         Host.emptyStore in
        (res.1 = Some (Other EmptyString StringType (JArr [JStr "literal"; JStr "a"]))
         <-> verdict.1 = None)
        /\ (verdict.1 ≠ None -> res.1 = None)
        /\ res.2 = verdict.2).
Proof.
  exact (parseExpression_expected Host.toString Host.typeName Host.jsString Host.otherParse
           "literal" [JStr "a"] (KOther "Literal")
           (newParsingContext Host.registry [] (Some (ExpType NumberType)) (newScope None []) 0)
           Host.emptyStore
           (Other EmptyString StringType (JArr [JStr "literal"; JStr "a"]))
           Host.emptyStore eq_refl eq_refl).
Defined.

(** ** The Curve kind *)

Lemma Qgtb_true previous label : Qgtb previous label = true <-> (label < previous)%Q.
Proof.
  unfold Qgtb. rewrite (Qgt_alt previous label).
  destruct (previous ?= label)%Q; split; congruence.
Qed.

Lemma Qgtb_equal previous label : (previous == label)%Q -> Qgtb previous label = false.
Proof. unfold Qgtb. rewrite Qeq_alt. by intros ->. Qed.

Section CurveFacts.

Variable toString : Expected -> string.
Variable typeName : Ty -> string.
Variable jsString : JSON -> string.
Variable otherParse : string -> list JSON -> ParsingContext -> Store -> option Expression * Store.

(** The loop over a list that starts with whole pairs goes through those
    pairs first. *)
Lemma parseStops_app (rec : Parse) pairs :
  forall suffix i stops outputType context h,
    parseStops rec (flatten pairs ++ suffix) i stops outputType context h
    = match parseStops rec (flatten pairs) i stops outputType context h with
      | (None, h') => (None, h')
      | (Some (stops', outputType'), h') =>
          parseStops rec suffix (i + 2 * length pairs) stops' outputType' context h'
      end.
Proof.
  induction pairs as [|[label value] pairs IH]; intros suffix i stops outputType context h.
  { simpl. by rewrite Nat.add_0_r. }
  change (flatten ((label, value) :: pairs)) with (label :: value :: flatten pairs).
  destruct label; try reflexivity.
  cbn [app parseStops]. destruct (descends stops q); [done|].
  destruct (parseStop _ q stops outputType) as [[[stops' outputType']|] h']; [|done].
  rewrite IH. replace (i + 2 + 2 * length pairs) with (i + 2 * length ((JNum q, value) :: pairs))
    by (simpl; lia).
  done.
Qed.

(** The labels of the stops parsed from whole pairs are the labels of the
    pairs. *)
Lemma parseStops_labels (rec : Parse) pairs :
  forall i stops outputType context h stops' outputType' h',
    parseStops rec (flatten pairs) i stops outputType context h
    = (Some (stops', outputType'), h') ->
    map (fun stop => JNum stop.1) stops'
    = map (fun stop => JNum stop.1) stops ++ map fst pairs.
Proof.
  induction pairs as [|[label value] pairs IH];
    intros i stops outputType context h stops' outputType' h' Hrun.
  { simpl in Hrun. injection Hrun as <- <- <-. by rewrite app_nil_r. }
  change (flatten ((label, value) :: pairs)) with (label :: value :: flatten pairs) in Hrun.
  destruct label; try discriminate. cbn [parseStops] in Hrun.
  destruct (descends stops q); [discriminate|].
  destruct (rec value _ h) as [[parsed|] h1]; [|discriminate].
  cbn [parseStop] in Hrun. apply IH in Hrun. rewrite Hrun, map_app. simpl.
  by rewrite <- app_assoc.
Qed.

Lemma parseStops_typed (rec : Parse) n :
  forall rest, length rest <= n ->
  forall i stops outputType context h stops' outputType' h',
    typedByFirst stops outputType ->
    parseStops rec rest i stops outputType context h = (Some (stops', outputType'), h') ->
    typedByFirst stops' outputType'.
Proof.
  induction n as [|n IH];
    intros rest Hlen i stops outputType context h stops' outputType' h' Htyped Hrun.
  { destruct rest; [|simpl in Hlen; lia]. simpl in Hrun. by injection Hrun as <- <- <-. }
  destruct rest as [|label rest1].
  { simpl in Hrun. by injection Hrun as <- <- <-. }
  destruct label; simpl in Hrun; try discriminate.
  destruct (descends stops q); [discriminate|].
  destruct rest1 as [|value rest2]; [discriminate|].
  destruct (rec value _ h) as [[parsed|] h1]; simpl in Hrun; [|discriminate].
  eapply IH in Hrun; [done | simpl in Hlen; lia |].
  destruct stops as [|[l first] stops]; simpl in *; by subst outputType.
Qed.

Lemma checkExpected_Some context parsed h e h' :
  checkExpected toString context parsed h = (Some e, h') -> e = parsed.
Proof.
  unfold checkExpected. repeat case_match; congruence.
Qed.

Lemma kind_not_lowercase t : String.eqb (kind t) "array" = false.
Proof. by destruct t. Qed.

(** C1: in [Curve.parse], suppose the interpolation, the input and the
    pairs before index [i] have been parsed, and the last stop parsed has
    label [previous].  If [previous] is strictly greater than the label at
    index [i], parsing returns nothing and pushes the ascending-order error,
    whose key is the key of the context extended by [i + 3]; otherwise, in
    particular when the two labels are equal, the pair is accepted: the value
    at position [i + 4] is parsed, the stop is recorded and the loop goes on
    with the pairs that follow. *)
Theorem Curve_parse_ascending op interpolation input pairs label more context expectedType h
    interpolation' h1 input' h2 stops outputType h3 previous e :
  let rec := parseExpression toString typeName jsString otherParse in
  let i := 2 * length pairs in
  parseInterpolation jsString interpolation context h = (Some interpolation', h1) ->
  rec input (concat context 2 (Some (ExpName "curve")) None) h1 = (Some input', h2) ->
  parseStops rec (flatten pairs) 0 [] expectedType context h2 = (Some (stops, outputType), h3) ->
  last stops = Some (previous, e) ->
  Curve_parse typeName jsString rec
    (op :: interpolation :: input :: flatten pairs ++ JNum label :: more)
    context expectedType h
  = (if Qgtb previous label
     then (None, error context msgAscending [i + 3] h3)
     else
       match more with
       | [] =>
           (None, error (concat context (i + 4) (Some (ExpName "curve")) None)
                    msgUndefined [] h3)
       | value :: more' =>
           match rec value (concat context (i + 4) (Some (ExpName "curve")) None) h3 with
           | (None, h4) => (None, h4)
           | (Some parsed, h4) =>
               match parseStops rec more' (i + 2) (stops ++ [(label, parsed)])
                       (orType outputType (exprType parsed)) context h4 with
               | (None, h5) => (None, h5)
               | (Some (stops', outputType'), h5) =>
                   finishCurve typeName context interpolation' input' stops' outputType' h5
               end
           end
       end)
  /\ (Qgtb previous label = true <-> (label < previous)%Q)
  /\ ((previous == label)%Q -> Qgtb previous label = false)
  /\ fst <$> last pairs = Some (JNum previous)
  /\ readErrors (error context msgAscending [i + 3] h3) (errors context)
     = readErrors h3 (errors context)
       ++ [mkParsingError (key context +:+ bracket (i + 3)) msgAscending].
Proof.
  intros rec i Hinterp Hinput Hstops Hlast.
  split_and!; [| apply Qgtb_true | apply Qgtb_equal | |].
  - assert (Hne : pairs ≠ []).
    { intros ->. simpl in Hstops. injection Hstops as <- _ _. discriminate. }
    rewrite Curve_parse_long.
    2:{ destruct pairs as [|[l v] pairs]; [done|]. simpl. lia. }
    rewrite Hinterp, Hinput, parseStops_app, Hstops.
    change (0 + 2 * length pairs) with i.
    cbn [parseStops]. unfold descends. rewrite Hlast.
    destruct (Qgtb previous label); [done|].
    destruct more as [|value more']; [done|].
    destruct (rec value _ h3) as [[parsed|] h4]; done.
  - apply parseStops_labels in Hstops. simpl in Hstops.
    rewrite <- fmap_last. change (fst <$> pairs) with (map fst pairs).
    rewrite <- Hstops.
    change (last ((fun stop : Q * Expression => JNum stop.1) <$> stops)
            = Some (JNum previous)).
    by rewrite fmap_last, Hlast.
  - by rewrite readErrors_error.
Qed.

(** C6: in [Curve.parse], once the interpolation, the input and all the
    stops have been parsed, with output type [t]: the result is the
    not-interpolatable error at child position 1, whose message carries the
    name of the type and the name of the strategy, when the test of lines
    100-103 holds, and the Curve expression otherwise.  The test holds
    whenever the strategy is not [Step] and [t] is none of [Number], [Color]
    and [Array(Number, _)]; it never holds for [Step]. *)
Theorem Curve_parse_interpolatable op interpolation input rest context expectedType h
    interpolation' h1 input' h2 stops t h3 :
  let rec := parseExpression toString typeName jsString otherParse in
  2 <= length rest ->
  parseInterpolation jsString interpolation context h = (Some interpolation', h1) ->
  rec input (concat context 2 (Some (ExpName "curve")) None) h1 = (Some input', h2) ->
  parseStops rec rest 0 [] expectedType context h2 = (Some (stops, Some t), h3) ->
  Curve_parse typeName jsString rec (op :: interpolation :: input :: rest)
    context expectedType h
  = (if notInterpolatable interpolation' t
     then (None, error context (msgNotInterpolatable typeName t interpolation') [1] h3)
     else (Some (Curve (key context) t interpolation' input' stops), h3))
  /\ (interpolation' ≠ Step -> t ≠ NumberType -> t ≠ ColorType ->
      (forall n, t ≠ array NumberType n) ->
      notInterpolatable interpolation' t = true)
  /\ (interpolation' = Step -> notInterpolatable interpolation' t = false)
  /\ msgNotInterpolatable typeName t interpolation'
     = "Type " +:+ typeName t +:+ " is not interpolatable, and thus cannot be used as a "
       +:+ interpolationName interpolation' +:+ " curve's output type.".
Proof.
  intros rec Hlen Hinterp Hinput Hstops. split_and!.
  - rewrite Curve_parse_long by done. by rewrite Hinterp, Hinput, Hstops.
  - intros Hstep Hnum Hcolor _. unfold notInterpolatable.
    rewrite kind_not_lowercase, !bool_decide_eq_false_2 by done.
    by destruct interpolation'.
  - by intros ->.
  - reflexivity.
Qed.

(** With the kind tags of the subtype checker, the test also holds for an
    array of numbers under a strategy other than [Step]. *)
Remark notInterpolatable_array_Number n : notInterpolatable Linear (array NumberType n) = true.
Proof. reflexivity. Qed.

(** C10: the dispatcher calls the parser of the [Curve] class with the raw
    array and the context only, so [Curve.parse] runs without an expected
    type; and a Curve expression that [parseExpression] returns has at least
    one stop and has the type of the expression of its first stop. *)
Theorem parseExpression_Curve_type op items context h e h' :
  let rec := parseExpression toString typeName jsString otherParse in
  definitions context !! op = Some KCurve ->
  rec (JArr (JStr op :: items)) context h = (Some e, h') ->
  Expr_parse typeName jsString otherParse rec KCurve (JStr op :: items) context h
  = Curve_parse typeName jsString rec (JStr op :: items) context None h
  /\ exists interpolation input label first stops,
      e = Curve (key context) (exprType first) interpolation input ((label, first) :: stops).
Proof.
  intros rec Hop Hrun. split; [done|].
  change (rec (JArr (JStr op :: items)) context h)
    with (parseArray toString typeName jsString otherParse rec (JStr op :: items) context h)
    in Hrun.
  unfold parseArray in Hrun. rewrite Hop in Hrun. unfold Expr_parse in Hrun.
  destruct (Curve_parse typeName jsString rec (JStr op :: items) context None h)
    as [[parsed|] h1] eqn:Hcurve; [|discriminate].
  apply checkExpected_Some in Hrun as ->.
  destruct (Curve_parse_cases (JStr op :: items))
    as [Hshort | (op' & interpolation & input & rest & Heq & Hlen)].
  { rewrite Curve_parse_short in Hcurve by done. discriminate. }
  rewrite Heq, Curve_parse_long in Hcurve by done.
  destruct (parseInterpolation jsString interpolation context h)
    as [[interpolation'|] h2]; [|discriminate].
  destruct (rec input _ h2) as [[input'|] h3]; [|discriminate].
  destruct (parseStops rec rest 0 [] None context h3)
    as [[[stops outputType]|] h4] eqn:Hstops; [|discriminate].
  eapply parseStops_typed in Hstops as Htyped; [| apply Nat.le_refl | done].
  unfold finishCurve in Hcurve. destruct outputType as [t|]; [|discriminate].
  destruct (notInterpolatable interpolation' t); [discriminate|].
  injection Hcurve as <- _.
  destruct stops as [|[label first] stops]; simpl in Htyped; [discriminate|].
  injection Htyped as ->. eauto 10.
Qed.

End CurveFacts.

(** ** Serialization *)

Lemma isString_eq v s : isString v s = true -> v = JStr s.
Proof. destruct v; simpl; try discriminate. by intros ->%String.eqb_eq. Qed.

Lemma controlPoints_back params :
  existsb badControlPoint params = false -> map JNum (omap asNumber params) = params.
Proof.
  induction params as [|v params IH]; [done|]. simpl.
  intros [Hv Hrest]%orb_false_elim. destruct v; try discriminate.
  change (JNum q :: map JNum (omap asNumber params) = JNum q :: params).
  f_equal. by apply IH.
Qed.

Section RoundTrip.

Variable toString : Expected -> string.
Variable typeName : Ty -> string.
Variable jsString : JSON -> string.
Variable otherParse : string -> list JSON -> ParsingContext -> Store -> option Expression * Store.

Lemma parseInterpolation_back interpolation context h interpolation' h' :
  parseInterpolation jsString interpolation context h = (Some interpolation', h') ->
  exactInterpolation interpolation = true ->
  interpArray interpolation' = interpolation.
Proof.
  unfold parseInterpolation, exactInterpolation, interpArray.
  destruct interpolation as [| | | |[|name params]| | |]; try discriminate.
  destruct (isString name "step") eqn:Hstep.
  { apply isString_eq in Hstep as ->. intros [= <- <-]. simpl.
    destruct params; [done | discriminate]. }
  destruct (isString name "linear") eqn:Hlinear.
  { apply isString_eq in Hlinear as ->. intros [= <- <-]. simpl.
    destruct params; [done | discriminate]. }
  destruct (isString name "exponential") eqn:Hexp.
  { apply isString_eq in Hexp as ->. simpl.
    destruct params as [|base [|? ?]]; simpl; try discriminate.
    destruct base; try discriminate. by intros [= <- <-]. }
  destruct (isString name "cubic-bezier") eqn:Hbezier; [|discriminate].
  apply isString_eq in Hbezier as ->. simpl.
  destruct (existsb badControlPoint params) eqn:Hbad.
  { rewrite orb_true_r. discriminate. }
  rewrite orb_false_r. destruct (negb _); [discriminate|].
  intros [= <- <-] _. by rewrite controlPoints_back.
Qed.

Lemma parseStops_back (rec : Parse) defs n :
  forall rest, length rest <= n -> Forall (comesBack rec defs) rest ->
  forall i stops outputType context h stops' outputType' h',
    definitions context = defs -> allValues (exactCurves defs) rest = true ->
    parseStops rec rest i stops outputType context h = (Some (stops', outputType'), h') ->
    serializeStops stops' = serializeStops stops ++ mapValues (canonical defs) rest.
Proof.
  induction n as [|n IH];
    intros rest Hlen Hrec i stops outputType context h stops' outputType' h' Hdefs Hexact Hrun.
  { destruct rest; [|simpl in Hlen; lia]. simpl in Hrun. injection Hrun as <- <- <-.
    by rewrite app_nil_r. }
  destruct rest as [|label rest1].
  { simpl in Hrun. injection Hrun as <- <- <-. by rewrite app_nil_r. }
  destruct label; simpl in Hrun; try discriminate.
  destruct (descends stops q); [discriminate|].
  destruct rest1 as [|value rest2]; [discriminate|].
  apply Forall_cons in Hrec as [_ Hrec]. apply Forall_cons in Hrec as [Hvalue Hrec].
  simpl in Hexact. apply andb_prop in Hexact as [Hv Hexact].
  destruct (rec value _ h) as [[parsed|] h1] eqn:Hparsed; simpl in Hrun; [|discriminate].
  apply Hvalue in Hparsed; [|done..].
  eapply IH in Hrun; [| simpl in Hlen; lia | done..].
  rewrite Hrun. unfold serializeStops. rewrite flat_map_app. simpl.
  rewrite Hparsed, <- app_assoc. done.
Qed.

Lemma Curve_parse_back (rec : Parse) defs op interpolation input rest context h e h' :
  definitions context = defs ->
  2 <= length rest ->
  comesBack rec defs input -> Forall (comesBack rec defs) rest ->
  exactInterpolation interpolation = true -> exactCurves defs input = true ->
  allValues (exactCurves defs) rest = true ->
  Curve_parse typeName jsString rec (op :: interpolation :: input :: rest) context None h
  = (Some e, h') ->
  serialize e
  = JArr (JStr "curve" :: interpolation :: canonical defs input
            :: mapValues (canonical defs) rest).
Proof.
  intros Hdefs Hlen Hinput Hrest Hei Hein Her Hrun.
  rewrite Curve_parse_long in Hrun by done.
  destruct (parseInterpolation jsString interpolation context h)
    as [[interpolation'|] h1] eqn:Hinterp; [|discriminate].
  destruct (rec input _ h1) as [[input'|] h2] eqn:Hin; [|discriminate].
  destruct (parseStops rec rest 0 [] None context h2)
    as [[[stops outputType]|] h3] eqn:Hstops; [|discriminate].
  unfold finishCurve in Hrun. destruct outputType as [t|]; [|discriminate].
  destruct (notInterpolatable interpolation' t); [discriminate|].
  injection Hrun as <- _.
  apply parseInterpolation_back in Hinterp; [|done].
  apply Hinput in Hin; [|done..].
  eapply parseStops_back in Hstops; [| apply Nat.le_refl | done..].
  change (serialize (Curve (key context) t interpolation' input' stops))
    with (JArr (JStr "curve" :: interpArray interpolation' :: serialize input'
                  :: serializeStops stops)).
  by rewrite Hinterp, Hin, Hstops.
Qed.

Lemma parseArray_back (rec : Parse) defs items context h e h' :
  roundTrips otherParse ->
  (forall op, defs !! op = Some KCurve -> op = "curve") ->
  definitions context = defs ->
  Forall (comesBack rec defs) (drop 2 items) ->
  exactCurves defs (JArr items) = true ->
  parseArray toString typeName jsString otherParse rec items context h = (Some e, h') ->
  serialize e = canonical defs (JArr items).
Proof.
  intros Hround Hname Hdefs Hrec Hexact Hrun. unfold parseArray in Hrun.
  destruct items as [|op items']; [discriminate|].
  destruct op as [| | |op| | | |]; try discriminate.
  rewrite Hdefs in Hrun.
  destruct (defs !! op) as [class|] eqn:Hop; [|discriminate].
  destruct (Expr_parse _ _ _ rec class _ context h) as [[parsed|] h1] eqn:Hparse;
    [|discriminate].
  apply checkExpected_Some in Hrun as ->.
  destruct class as [|class]; simpl in Hparse.
  - destruct (Curve_parse_cases (JStr op :: items'))
      as [Hshort | (op' & interpolation & input & rest & Heq & Hlen)].
    { rewrite Curve_parse_short in Hparse by done. discriminate. }
    injection Heq as <- ->. simpl in Hexact, Hrec |- *. rewrite Hop in Hexact |- *.
    apply andb_prop in Hexact as [[Hei Hein]%andb_prop Her].
    apply Forall_cons in Hrec as [Hinput Hrec].
    rewrite (Hname op Hop).
    by eapply Curve_parse_back.
  - apply Hround in Hparse. rewrite Hparse. simpl.
    destruct items' as [|? [|? ?]]; try done. by rewrite Hop.
Qed.

(** C7 (as amended): [serialize] builds [["curve", interpArray, input,
    label_1, value_1, ...]], with [interpArray] the name alone for [Step] and
    [Linear], the name and the base for [Exponential], the name and the
    control points for [CubicBezier]; and for every raw expression [j] that
    parses, [serialize(parse(j))] is [j] in canonical form (bare scalars in
    expression positions as literals), provided that every interpolation
    array in [j] has no element beyond those [Curve.parse] reads, that the
    registry knows the [Curve] class under the name ["curve"] only, and that
    the expressions of the other classes serialize to the array they were
    parsed from. *)
Theorem serialize_parse j context h e h' :
  roundTrips otherParse ->
  (forall op, definitions context !! op = Some KCurve -> op = "curve") ->
  exactCurves (definitions context) j = true ->
  parseExpression toString typeName jsString otherParse j context h = (Some e, h') ->
  serialize e = canonical (definitions context) j
  /\ (forall k t interpolation input stops,
        serialize (Curve k t interpolation input stops)
        = JArr (JStr "curve" :: interpArray interpolation :: serialize input
                  :: serializeStops stops))
  /\ interpArray Step = JArr [JStr "step"]
  /\ interpArray Linear = JArr [JStr "linear"]
  /\ (forall base, interpArray (Exponential base) = JArr [JStr "exponential"; JNum base])
  /\ (forall c0 c1 c2 c3,
        interpArray (CubicBezier [c0; c1; c2; c3])
        = JArr [JStr "cubic-bezier"; JNum c0; JNum c1; JNum c2; JNum c3]).
Proof.
  intros Hround Hname Hexact Hrun. split_and!; try done.
  pose (self := parseExpression toString typeName jsString otherParse).
  remember (definitions context) as defs eqn:Hdefs. symmetry in Hdefs.
  revert context h e h' Hdefs Hexact Hrun. fold (comesBack self defs j).
  induction j as [|b|q|s|items IH|fields| |n] using JSON_nested_ind;
    intros context h e h' Hdefs Hexact Hrun; try discriminate;
    try (by apply (parseArray_back self defs [JStr "literal"; _] context h e h');
         try done; constructor).
  apply (parseArray_back self defs items context h e h'); try done.
  by apply Forall_drop.
Qed.

End RoundTrip.

(** ** Runs on the concrete host *)

Lemma Host_roundTrips : roundTrips Host.otherParse.
Proof.
  intros class args context h e h'. unfold Host.otherParse.
  repeat case_match; intros [= <- <-]; by subst.
Qed.

Lemma Host_registry_curve op : Host.registry !! op = Some KCurve -> op = "curve".
Proof.
  unfold Host.registry. intros Hop.
  destruct (decide (op = "curve")) as [-> | Hne]; [done|].
  rewrite lookup_insert_ne in Hop by done.
  destruct (decide (op = "literal")) as [-> | Hne2].
  { rewrite lookup_insert_eq in Hop. discriminate. }
  rewrite lookup_insert_ne in Hop by done.
  destruct (decide (op = "error")) as [-> | Hne3].
  { rewrite lookup_insert_eq in Hop. discriminate. }
  rewrite lookup_insert_ne in Hop by done. by rewrite lookup_empty in Hop.
Qed.

(** Stops [(2, a), (1, b)]: the error targets the second label, at child
    position 5. *)
Lemma Curve_parse_ascending_witness :
  Curve_parse Host.typeName Host.jsString Host.parse
    [JStr "curve"; JArr [JStr "step"]; Host.err; JNum 2; Host.err; JNum 1; Host.err]
    Host.root None Host.emptyStore
  = (None, error Host.root msgAscending [5] Host.emptyStore).
Proof.
  exact (proj1 (Curve_parse_ascending Host.toString Host.typeName Host.jsString
                  Host.otherParse (JStr "curve") (JArr [JStr "step"]) Host.err
                  [(JNum 2, Host.err)] 1 [Host.err] Host.root None Host.emptyStore
                  Step Host.emptyStore (Other "[2]" ErrorType Host.err) Host.emptyStore
                  [(2%Q, Other "[4]" ErrorType Host.err)] (Some ErrorType) Host.emptyStore
                  2 (Other "[4]" ErrorType Host.err)
                  eq_refl eq_refl eq_refl eq_refl)).
Defined.

Example ascending_error_recorded :
  readErrors (Host.parse
                (JArr [JStr "curve"; JArr [JStr "step"]; Host.err; JNum 2; Host.err;
                       JNum 1; Host.err]) Host.root Host.emptyStore).2 0
  = [mkParsingError "[5]" msgAscending].
Proof. vm_compute. reflexivity. Qed.

(** Stops [(1, a), (2, b), (3, c)] are accepted. *)
Example ascending_labels_accepted :
  (Host.parse (JArr [JStr "curve"; JArr [JStr "step"]; Host.err; JNum 1; Host.err;
                     JNum 2; Host.err; JNum 3; Host.err]) Host.root Host.emptyStore)
  = (Some (Curve EmptyString ErrorType Step (Other "[2]" ErrorType Host.err)
             [(1%Q, Other "[4]" ErrorType Host.err); (2%Q, Other "[6]" ErrorType Host.err);
              (3%Q, Other "[8]" ErrorType Host.err)]),
     Host.emptyStore).
Proof. vm_compute. reflexivity. Qed.

(** Stops [(1, a), (1, b)]: equal labels pass the ordering test. *)
Example equal_labels_accepted :
  Host.parse (JArr [JStr "curve"; JArr [JStr "step"]; Host.err; JNum 1; Host.err;
                    JNum 1; Host.err]) Host.root Host.emptyStore
  = (Some (Curve EmptyString ErrorType Step (Other "[2]" ErrorType Host.err)
             [(1%Q, Other "[4]" ErrorType Host.err); (1%Q, Other "[6]" ErrorType Host.err)]),
     Host.emptyStore).
Proof. vm_compute. reflexivity. Qed.

(** The children of a curve are checked against the name ['curve'], which
    only the type [Error] passes: a numeric literal as input is rejected. *)
Example numeric_input_rejected :
  (Host.parse (JArr [JStr "curve"; JArr [JStr "step"]; Host.num 0; JNum 1; Host.err])
     Host.root Host.emptyStore).1 = None
  /\ readErrors (Host.parse
                   (JArr [JStr "curve"; JArr [JStr "step"]; Host.num 0; JNum 1; Host.err])
                   Host.root Host.emptyStore).2 0
     = [mkParsingError "[2]" "Expected undefined but found Number instead."].
Proof. split; vm_compute; reflexivity. Qed.

Lemma Curve_parse_interpolatable_witness :
  Curve_parse Host.typeName Host.jsString Host.parse
    [JStr "curve"; JArr [JStr "linear"]; Host.err; JNum 0; Host.err]
    Host.root None Host.emptyStore
  = (None, error Host.root (msgNotInterpolatable Host.typeName ErrorType Linear) [1]
             Host.emptyStore).
Proof.
  exact (proj1 (Curve_parse_interpolatable Host.toString Host.typeName Host.jsString
                  Host.otherParse (JStr "curve") (JArr [JStr "linear"]) Host.err
                  [JNum 0; Host.err] Host.root None Host.emptyStore
                  Linear Host.emptyStore (Other "[2]" ErrorType Host.err) Host.emptyStore
                  [(0%Q, Other "[4]" ErrorType Host.err)] ErrorType Host.emptyStore
                  (le_n 2) eq_refl eq_refl eq_refl)).
Defined.

Lemma parseExpression_Curve_type_witness :
  exists interpolation input label first stops,
    Curve EmptyString ErrorType Step (Other "[2]" ErrorType Host.err)
      [(0%Q, Other "[4]" ErrorType Host.err)]
    = Curve (key Host.root) (exprType first) interpolation input ((label, first) :: stops).
Proof.
  exact (proj2 (parseExpression_Curve_type Host.toString Host.typeName Host.jsString
                  Host.otherParse "curve"
                  [JArr [JStr "step"]; Host.err; JNum 0; Host.err]
                  Host.root Host.emptyStore
                  (Curve EmptyString ErrorType Step (Other "[2]" ErrorType Host.err)
                     [(0%Q, Other "[4]" ErrorType Host.err)])
                  Host.emptyStore eq_refl eq_refl)).
Defined.

Lemma serialize_parse_witness :
  serialize (Curve EmptyString ErrorType Step (Other "[2]" ErrorType Host.err)
               [(0%Q, Other "[4]" ErrorType Host.err); (1%Q, Other "[6]" ErrorType Host.err)])
  = canonical Host.registry
      (JArr [JStr "curve"; JArr [JStr "step"]; Host.err; JNum 0; Host.err; JNum 1; Host.err]).
Proof.
  exact (proj1 (serialize_parse Host.toString Host.typeName Host.jsString Host.otherParse
                  (JArr [JStr "curve"; JArr [JStr "step"]; Host.err;
                         JNum 0; Host.err; JNum 1; Host.err])
                  Host.root Host.emptyStore
                  (Curve EmptyString ErrorType Step
                     (Other "[2]" ErrorType Host.err)
                     [(0%Q, Other "[4]" ErrorType Host.err);
                      (1%Q, Other "[6]" ErrorType Host.err)])
                  Host.emptyStore
                  Host_roundTrips Host_registry_curve eq_refl eq_refl)).
Defined.

(** C7, counterexample: a curve whose interpolation array has a surplus
    element parses, is already in canonical form, and does not come back
    from [serialize]. *)
Lemma serialize_parse_surplus :
  let j := JArr [JStr "curve"; JArr [JStr "step"; JNum 7]; Host.err; JNum 0; Host.err] in
  exists e,
    Host.parse j Host.root Host.emptyStore = (Some e, Host.emptyStore)
    /\ canonical Host.registry j = j
    /\ serialize e ≠ j.
Proof.
  eexists. split_and!; [vm_compute; reflexivity | reflexivity |].
  vm_compute. discriminate.
Qed.

(** * Further properties *)

(** ** The subtype checker as an order *)

Lemma subtypeOf_Value t : subtypeOf ValueType t = true.
Proof. by destruct t. Qed.

Lemma subtypeOf_refl t : subtypeOf t t = true.
Proof.
  induction t as [| | | | | | | |itemType IH N]; try reflexivity.
  simpl. rewrite IH. destruct N as [n|]; [|done]. simpl. by apply bool_decide_eq_true_2.
Qed.

Lemma sameLength_trans N N' N'' :
  sameLength N N' = true -> sameLength N' N'' = true -> sameLength N N'' = true.
Proof.
  destruct N as [n|]; [|done]. simpl.
  intros ->%bool_decide_eq_true_1. simpl. done.
Qed.

Lemma subtypeOf_trans c : forall a b,
  subtypeOf a b = true -> subtypeOf b c = true -> subtypeOf a c = true.
Proof.
  induction c as [| | | | | | | |itemC IH NC]; intros a b Hab Hbc;
    try (destruct b; try discriminate; destruct a; try discriminate; done).
  destruct b as [| | | | | | | |itemB NB]; try done;
    destruct a as [| | | | | | | |itemA NA]; try done.
  simpl in *. apply andb_prop in Hab as [Hi Hn]. apply andb_prop in Hbc as [Hi' Hn'].
  apply andb_true_intro. split; [by eapply IH | by eapply sameLength_trans].
Qed.

Lemma sameLength_antisym N N' :
  sameLength N N' = true -> sameLength N' N = true -> N = N'.
Proof.
  destruct N as [n|], N' as [n'|]; simpl; try done.
  by intros [= ->]%bool_decide_eq_true_1.
Qed.

Lemma subtypeOf_antisym a : forall b,
  subtypeOf a b = true -> subtypeOf b a = true -> a = b.
Proof.
  induction a as [| | | | | | | |itemA IH NA]; intros b Hab Hba;
    try (destruct b; done).
  destruct b as [| | | | | | | |itemB NB]; try done.
  simpl in *. apply andb_prop in Hab as [Hi Hn]. apply andb_prop in Hba as [Hi' Hn'].
  f_equal; [by apply IH | by apply sameLength_antisym].
Qed.

Section OrderFacts.

Variable toString : Expected -> string.

Lemma checkSubtype_verdict expected t context h :
  (checkSubtype toString (ExpType expected) t context h).1 = None
  <-> subtypeOf expected t = true.
Proof.
  revert expected context h.
  induction t as [| | | | | | | |itemType' IH N']; intros expected context h;
    try (destruct (decide (expected = ValueType)) as [-> | Hv];
         [ by rewrite checkSubtype_Value_accepts
         | rewrite checkSubtype_unfold; unfold checkSubtypeBody;
           destruct expected; try done; simpl;
           first [ by rewrite decide_True by done
                 | rewrite decide_False by done; simpl;
                   rewrite bool_decide_eq_false_2 by done; done
                 | done ] ]).
  destruct (decide (expected = ValueType)) as [-> | Hv];
    [by rewrite checkSubtype_Value_accepts|].
  rewrite checkSubtype_unfold. unfold checkSubtypeBody.
  destruct expected as [| | | | | | | |itemType N]; try done;
    try (simpl; rewrite decide_False by done; done).
  specialize (IH itemType None h).
  destruct (checkSubtype toString (ExpType itemType) itemType' None h)
    as [[message|] h1]; simpl in *.
  - destruct (subtypeOf itemType itemType'); [|done].
    destruct IH as [_ IH]. by specialize (IH eq_refl).
  - rewrite (proj1 IH eq_refl). simpl. destruct N as [n|]; [|done]. simpl.
    case_decide as Hn; simpl.
    + by rewrite bool_decide_eq_true_2.
    + by rewrite bool_decide_eq_false_2.
Qed.

Lemma checkSubtype_accepted expected t context h :
  subtypeOf expected t = true ->
  checkSubtype toString (ExpType expected) t context h = (None, h).
Proof.
  intros Hsub%(checkSubtype_verdict expected t context h).
  destruct (checkSubtype_outcome toString (ExpType expected) t context h) as [Heq | Heq];
    [done|]. rewrite Heq in Hsub. discriminate.
Qed.

Lemma checkSubtype_rejected expected t context h :
  subtypeOf expected t = false ->
  checkSubtype toString (ExpType expected) t context h
  = reject toString (ExpType expected) t context h.
Proof.
  intros Hsub.
  destruct (checkSubtype_outcome toString (ExpType expected) t context h) as [Heq | Heq];
    [|done].
  assert (subtypeOf expected t = true); [|congruence].
  apply (checkSubtype_verdict expected t context h). by rewrite Heq.
Qed.

Lemma string_app_nil_r (s : string) : s +:+ EmptyString = s.
Proof.
  induction s as [|a s IH]; [done|].
  change (String a (s +:+ EmptyString) = String a s). by rewrite IH.
Qed.

Lemma string_app_assoc (s1 s2 s3 : string) : (s1 +:+ s2) +:+ s3 = s1 +:+ (s2 +:+ s3).
Proof.
  induction s1 as [|a s1 IH]; [done|].
  change (String a ((s1 +:+ s2) +:+ s3) = String a (s1 +:+ (s2 +:+ s3))). by rewrite IH.
Qed.

(** X1: [checkSubtype] computes the structural relation [subtypeOf]: when
    the relation holds it returns [null] and leaves the store as it was;
    when it does not, it returns the message naming the expected and the
    actual type, and, if a context is given, the errors array of that context
    gets exactly one new entry, keyed by the key of the context; without a
    context the store is left as it was. *)
Theorem checkSubtype_subtypeOf expected t context h :
  let res := checkSubtype toString (ExpType expected) t context h in
  (res.1 = None <-> subtypeOf expected t = true)
  /\ (subtypeOf expected t = true -> res = (None, h))
  /\ (subtypeOf expected t = false ->
      res.1 = Some (subtypeMessage toString (ExpType expected) t)
      /\ match context with
         | Some c =>
             res.2 = push (errors c)
                       (mkParsingError (key c)
                          (subtypeMessage toString (ExpType expected) t)) h
         | None => res.2 = h
         end).
Proof.
  split_and!.
  - apply checkSubtype_verdict.
  - apply checkSubtype_accepted.
  - intros Hsub. cbv zeta. rewrite checkSubtype_rejected by done.
    split; [done|]. destruct context as [c|]; [|done].
    unfold reject, error. cbn [fst snd map String.concat].
    by rewrite string_app_nil_r.
Qed.

(** X2: the checker is reflexive: every type is accepted where it is itself
    expected, and nothing is recorded. *)
Theorem checkSubtype_reflexive t context h :
  checkSubtype toString (ExpType t) t context h = (None, h).
Proof. apply checkSubtype_accepted, subtypeOf_refl. Qed.

(** X3: the checker is transitive: if [b] is accepted where [a] is expected
    and [c] where [b] is expected, then [c] is accepted where [a] is
    expected, whatever the contexts and stores of the three calls. *)
Theorem checkSubtype_transitive a b c context1 h1 context2 h2 context3 h3 :
  (checkSubtype toString (ExpType a) b context1 h1).1 = None ->
  (checkSubtype toString (ExpType b) c context2 h2).1 = None ->
  checkSubtype toString (ExpType a) c context3 h3 = (None, h3).
Proof.
  intros Hab%checkSubtype_verdict Hbc%checkSubtype_verdict.
  apply checkSubtype_accepted. by eapply subtypeOf_trans.
Qed.

(** X4: the checker is antisymmetric: two types each accepted where the
    other is expected are the same type. *)
Theorem checkSubtype_antisymmetric a b context1 h1 context2 h2 :
  (checkSubtype toString (ExpType a) b context1 h1).1 = None ->
  (checkSubtype toString (ExpType b) a context2 h2).1 = None ->
  a = b.
Proof.
  intros Hab%checkSubtype_verdict Hba%checkSubtype_verdict.
  by apply subtypeOf_antisym.
Qed.

(** X5: [Error] is the least type: it is accepted where anything is
    expected, a name in the expected position included, and where [Error] is
    expected nothing but [Error] is accepted. *)
Theorem checkSubtype_Error_least expected t context h :
  checkSubtype toString expected ErrorType context h = (None, h)
  /\ ((checkSubtype toString (ExpType ErrorType) t context h).1 = None <-> t = ErrorType).
Proof.
  split; [by rewrite checkSubtype_unfold|].
  rewrite checkSubtype_verdict. by destruct t.
Qed.

(** X6: [Value] is the greatest type: every type is accepted where [Value]
    is expected, and [Value] is accepted only where [Value] is expected. *)
Theorem checkSubtype_Value_greatest expected t context h :
  checkSubtype toString (ExpType ValueType) t context h = (None, h)
  /\ ((checkSubtype toString (ExpType expected) ValueType context h).1 = None
      <-> expected = ValueType).
Proof.
  split; [apply checkSubtype_Value_accepts|].
  rewrite checkSubtype_verdict. by destruct expected.
Qed.

(** X7: a type other than [Value] and the array types accepts exactly its
    own kind and [Error]: there is no coercion between [Null], [Number],
    [String], [Boolean], [Object] and [Color], and none of them accepts
    [Value] or an array type. *)
Theorem checkSubtype_plain expected t context h :
  expected ≠ ValueType -> (forall itemType N, expected ≠ array itemType N) ->
  ((checkSubtype toString (ExpType expected) t context h).1 = None
   <-> t = expected \/ t = ErrorType).
Proof.
  intros Hv Ha. rewrite checkSubtype_verdict.
  destruct expected; try done; try (by destruct (Ha expected N));
    destruct t; simpl; split; intros H; try done; auto;
    destruct H as [H | H]; done.
Qed.

(** X8: with a name instead of a type in the expected position, which is
    what [Curve.parse] puts there, the checker accepts the actual type
    [Error] and no other; the rejection is reported like any other. *)
Theorem checkSubtype_name name t context h :
  ((checkSubtype toString (ExpName name) t context h).1 = None <-> t = ErrorType)
  /\ (t ≠ ErrorType ->
      checkSubtype toString (ExpName name) t context h
      = reject toString (ExpName name) t context h).
Proof.
  rewrite checkSubtype_unfold. unfold checkSubtypeBody.
  destruct t; simpl; split; try done; by intros [].
Qed.

End OrderFacts.

Lemma checkSubtype_transitive_witness :
  checkSubtype Host.toString (ExpType (array ValueType None)) (array NumberType (Some 3))
    None Host.emptyStore
  = (None, Host.emptyStore).
Proof.
  exact (checkSubtype_transitive Host.toString
           (array ValueType None) (array NumberType None) (array NumberType (Some 3))
           None Host.emptyStore None Host.emptyStore None Host.emptyStore
           eq_refl eq_refl).
Defined.

Lemma checkSubtype_antisymmetric_witness :
  array NumberType (Some 2) = array NumberType (Some 2).
Proof.
  exact (checkSubtype_antisymmetric Host.toString
           (array NumberType (Some 2)) (array NumberType (Some 2))
           None Host.emptyStore None Host.emptyStore eq_refl eq_refl).
Defined.

Lemma checkSubtype_plain_witness :
  (checkSubtype Host.toString (ExpType NumberType) ValueType None Host.emptyStore).1 = None
  <-> ValueType = NumberType \/ ValueType = ErrorType.
Proof.
  apply (checkSubtype_plain Host.toString NumberType ValueType None Host.emptyStore);
    [discriminate | intros itemType N; discriminate].
Defined.

(** ** Scopes *)

Lemma Scope_has_get s name : Scope_has s name = true <-> exists e, Scope_get s name = Some e.
Proof.
  revert s. fix self 1. intros [parent bindings]. simpl.
  destruct (bindings !! name) as [e|]; [split; eauto|].
  destruct parent as [p|]; [apply self|].
  split; [done | by intros [e He]].
Qed.

Lemma frame_lookup_absent (bs : list (string * Expression)) :
  forall (m : gmap string Expression) name,
    name ∉ bs.*1 ->
    foldl (fun m b => <[b.1 := b.2]> m) m bs !! name = m !! name.
Proof.
  induction bs as [|[n e] bs IH]; intros m name Hname; [done|]. simpl in *.
  apply not_elem_of_cons in Hname as [Hne Hname].
  rewrite IH by done. by rewrite lookup_insert_ne.
Qed.

Lemma frame_lookup_last (pre post : list (string * Expression)) name e :
  forall m : gmap string Expression,
    name ∉ post.*1 ->
    foldl (fun m b => <[b.1 := b.2]> m) m (pre ++ (name, e) :: post) !! name = Some e.
Proof.
  intros m Hname. rewrite foldl_app. simpl.
  rewrite frame_lookup_absent by done. apply lookup_insert_eq.
Qed.

Lemma PlainObject_has_get member s name :
  PlainObject.Scope_has member s name = true
  <-> exists v, PlainObject.Scope_get member s name = Some v.
Proof.
  revert s. fix self 1. intros [parent bindings]. simpl.
  destruct (PlainObject.read member bindings name) as [v|]; [split; eauto|].
  destruct parent as [p|]; [apply self|].
  split; [done | by intros [v Hv]].
Qed.

(** In a scope where no frame binds ['__proto__'], the lookup of a name that
    is not inherited from [Object.prototype] is the lookup of own
    properties. *)
Lemma PlainObject_own member s name :
  inheritedName name = false ->
  noProtoBinding s ->
  PlainObject.Scope_get member s name = BoundExpression <$> Scope_get s name
  /\ PlainObject.Scope_has member s name = Scope_has s name.
Proof.
  intros Hname. revert s. fix self 1. intros [parent bindings] [Hproto Hparent]. simpl.
  unfold PlainObject.read. rewrite Hproto, Hname.
  destruct (bindings !! name) as [e|]; [done|].
  destruct parent as [p|]; [by apply self | done].
Qed.

(** X9: [has] is the exact guard of [get], for every scope and every name,
    the names inherited from [Object.prototype] and the frames with a
    replaced prototype included: [has(name)] is true exactly when
    [get(name)] returns a value, so [get] throws exactly when [has] is
    false.  A scope made without a parent and without bindings holds exactly
    the inherited names, and [get] returns for them a value that is no bound
    expression. *)
Theorem Scope_has_guards_get member s name :
  (PlainObject.Scope_has member s name = true
   <-> exists v, PlainObject.Scope_get member s name = Some v)
  /\ (PlainObject.Scope_has member s name = false
      <-> PlainObject.Scope_get member s name = None)
  /\ PlainObject.Scope_has member (newScope None []) name = inheritedName name
  /\ PlainObject.Scope_get member (newScope None []) name
     = (if inheritedName name then Some BoundInherited else None).
Proof.
  split_and!.
  - apply PlainObject_has_get.
  - pose proof (PlainObject_has_get member s name) as Hg.
    destruct (PlainObject.Scope_has member s name),
      (PlainObject.Scope_get member s name) as [v|]; split; try done.
    + intros _. destruct (proj1 Hg eq_refl) as [v Hv]. discriminate.
    + intros _. assert (false = true) as Hft; [|discriminate Hft]. apply Hg. eauto.
  - simpl. unfold PlainObject.read. rewrite !lookup_empty.
    by destruct (inheritedName name).
  - simpl. unfold PlainObject.read. rewrite !lookup_empty.
    by destruct (inheritedName name).
Qed.

(** X10: in the scope that [concat] builds, a name bound by the new bindings
    is found in the new frame, with the expression of its last binding in
    the array, whatever the outer scopes bind it to. *)
Theorem Scope_concat_shadows s pre post name e :
  name ∉ post.*1 ->
  Scope_get (Scope_concat s (pre ++ (name, e) :: post)) name = Some e
  /\ Scope_has (Scope_concat s (pre ++ (name, e) :: post)) name = true.
Proof.
  intros Hname. unfold Scope_concat, newScope. simpl.
  by rewrite frame_lookup_last.
Qed.

(** X11: in the scope that [concat] builds, a name that the new bindings do
    not mention, and that the new frame does not inherit (the name is not one
    of [Object.prototype] and the new bindings do not bind ['__proto__']), is
    looked up in the scope it was built from. *)
Theorem Scope_concat_inherits member s bs name :
  name ∉ bs.*1 ->
  inheritedName name = false ->
  "__proto__" ∉ bs.*1 ->
  PlainObject.Scope_get member (Scope_concat s bs) name = PlainObject.Scope_get member s name
  /\ PlainObject.Scope_has member (Scope_concat s bs) name
     = PlainObject.Scope_has member s name.
Proof.
  intros Hname Hinherited Hproto. unfold Scope_concat, newScope.
  split; simpl; unfold PlainObject.read;
    by rewrite !frame_lookup_absent, !lookup_empty, Hinherited.
Qed.

Lemma Scope_concat_shadows_witness :
  let a := Other "a" NumberType JNull in
  let b := Other "b" StringType JNull in
  Scope_get (Scope_concat (newScope None [("x", a)]) ([("x", a)] ++ ("x", b) :: [("y", a)])) "x"
  = Some b
  /\ Scope_has (Scope_concat (newScope None [("x", a)]) ([("x", a)] ++ ("x", b) :: [("y", a)]))
       "x" = true.
Proof.
  apply (Scope_concat_shadows (newScope None [("x", Other "a" NumberType JNull)])
           [("x", Other "a" NumberType JNull)] [("y", Other "a" NumberType JNull)] "x"
           (Other "b" StringType JNull)).
  simpl. apply not_elem_of_cons. split; [discriminate | apply not_elem_of_nil].
Defined.

Lemma Scope_concat_inherits_witness :
  let a := Other "a" NumberType JNull in
  PlainObject.Scope_get (fun _ _ => None) (Scope_concat (newScope None [("x", a)]) [("y", a)]) "x"
  = PlainObject.Scope_get (fun _ _ => None) (newScope None [("x", a)]) "x"
  /\ PlainObject.Scope_has (fun _ _ => None) (Scope_concat (newScope None [("x", a)]) [("y", a)])
       "x"
     = PlainObject.Scope_has (fun _ _ => None) (newScope None [("x", a)]) "x".
Proof.
  apply (Scope_concat_inherits (fun _ _ => None)
           (newScope None [("x", Other "a" NumberType JNull)])
           [("y", Other "a" NumberType JNull)] "x");
    [| reflexivity |];
    simpl; apply not_elem_of_cons; (split; [discriminate | apply not_elem_of_nil]).
Defined.

(** The inherited names: an empty scope has ['constructor'], and a binding
    of ['toString'] in an outer frame is hidden by the inner frame, which
    inherits one. *)
Example Scope_has_constructor :
  PlainObject.Scope_has (fun _ _ => None) (newScope None []) "constructor" = true.
Proof. reflexivity. Qed.

Example Scope_get_hidden :
  let a := Other "a" NumberType JNull in
  PlainObject.Scope_get (fun _ _ => None) (newScope None [("toString", a)]) "toString"
  = Some (BoundExpression a)
  /\ PlainObject.Scope_get (fun _ _ => None)
       (Scope_concat (newScope None [("toString", a)]) []) "toString"
     = Some BoundInherited.
Proof. split; reflexivity. Qed.

(** ** Keys of derived contexts *)

Lemma concat_empty_cons x xs :
  String.concat EmptyString (x :: xs) = x +:+ String.concat EmptyString xs.
Proof. destruct xs; [by rewrite string_app_nil_r | done]. Qed.

Lemma concat_empty_app xs ys :
  String.concat EmptyString (xs ++ ys)
  = String.concat EmptyString xs +:+ String.concat EmptyString ys.
Proof.
  induction xs as [|x xs IH]; [done|].
  change ((x :: xs) ++ ys) with (x :: (xs ++ ys)).
  by rewrite !concat_empty_cons, IH, string_app_assoc.
Qed.

Lemma pathKey_snoc p i : pathKey (p ++ [i]) = pathKey p +:+ bracket i.
Proof. unfold pathKey. by rewrite map_app, concat_empty_app. Qed.

(** X12: a context made by the constructor or by [concat] has the key its
    path gives; when that holds for [c], the key of [c.concat(i, ...)] is the
    key of [c] followed by [[i]], and an error reported through the child
    with keys [ks] is the error reported through [c] with keys [i, ks]: the
    two ways of addressing a position agree. *)
Theorem concat_key c i expected bindings :
  wellKeyed c ->
  wellKeyed (concat c i expected bindings)
  /\ key (concat c i expected bindings) = key c +:+ bracket i
  /\ (forall message keys h,
        error (concat c i expected bindings) message keys h
        = error c message (i :: keys) h)
  /\ (forall defs p e sc errs, wellKeyed (newParsingContext defs p e sc errs)).
Proof.
  unfold wellKeyed. intros Hkey. split_and!; try done.
  - rewrite key_concat, pathKey_snoc. by rewrite Hkey.
  - intros message keys h. unfold error. rewrite errors_concat, key_concat, pathKey_snoc.
    rewrite <- Hkey. change (map bracket (i :: keys)) with (bracket i :: map bracket keys).
    by rewrite concat_empty_cons, string_app_assoc.
Qed.

Lemma concat_key_witness :
  error (concat Host.root 4 None None) "m" [] Host.emptyStore
  = error Host.root "m" [4] Host.emptyStore.
Proof.
  exact (proj1 (proj2 (proj2 (concat_key Host.root 4 None None eq_refl))) "m" [] Host.emptyStore).
Defined.

(** ** The dispatcher: inputs it rejects itself *)

Section DispatcherFacts.

Variable toString : Expected -> string.
Variable typeName : Ty -> string.
Variable jsString : JSON -> string.
Variable otherParse : string -> list JSON -> ParsingContext -> Store -> option Expression * Store.

(** X13: a value with no operator to dispatch on (an empty array, an array
    whose first element is not a string, [undefined], a bare object, a
    function or a symbol) is rejected whatever the registry and the classes
    of the host: nothing is returned and one error is pushed, keyed by the
    key of the context, extended by position 0 when the first element of an
    array is at fault. *)
Theorem parseExpression_malformed v context h :
  malformed v = true ->
  parseExpression toString typeName jsString otherParse v context h
  = (None, error context (malformedReport v).1 (malformedReport v).2 h).
Proof.
  destruct v as [| | | |[|op items]|fields| |o]; try discriminate; try reflexivity.
  by destruct op.
Qed.

(** X15: a curve with fewer than four arguments after the operator is
    rejected before anything is parsed: the error counts the arguments found
    and is keyed by the key of the context itself. *)
Theorem parseExpression_Curve_arity op items context h :
  definitions context !! op = Some KCurve ->
  length items < 4 ->
  parseExpression toString typeName jsString otherParse (JArr (JStr op :: items)) context h
  = (None, error context (msgTooFew (length items)) [] h).
Proof.
  intros Hop Hlen.
  change (parseArray toString typeName jsString otherParse
            (parseExpression toString typeName jsString otherParse)
            (JStr op :: items) context h
          = (None, error context (msgTooFew (length items)) [] h)).
  unfold parseArray. rewrite Hop. unfold Expr_parse.
  by rewrite Curve_parse_short.
Qed.

End DispatcherFacts.

(** ** Invariants of the curves that [Curve.parse] returns *)

Lemma controlPoints_good params :
  existsb badControlPoint params = false ->
  length (omap asNumber params) = length params
  /\ Forall passesBounds (omap asNumber params).
Proof.
  induction params as [|v params IH]; [by split|].
  intros H. cbn [existsb] in H. apply orb_false_elim in H as [Hv Hrest].
  destruct (IH Hrest) as [Hlen Hall].
  destruct v; try discriminate. unfold badControlPoint in Hv.
  apply orb_false_elim in Hv as [Hlow Hhigh].
  change (omap asNumber (JNum q :: params)) with (q :: omap asNumber params).
  split; [cbn [length]; by f_equal|].
  apply Forall_cons. by split.
Qed.

Lemma parseInterpolation_wellFormed jsString interpolation context h i h' :
  parseInterpolation jsString interpolation context h = (Some i, h') ->
  h' = h /\ wellFormedInterpolation i.
Proof.
  unfold parseInterpolation.
  destruct interpolation as [| | | |[|name params]| | |]; try discriminate.
  destruct (isString name "step"); [by intros [= <- <-]|].
  destruct (isString name "linear"); [by intros [= <- <-]|].
  destruct (isString name "exponential").
  { destruct (hd JUndefined params); try discriminate. by intros [= <- <-]. }
  destruct (isString name "cubic-bezier"); [|discriminate].
  destruct (Nat.eqb_spec (length params) 4) as [Hlen|]; [|discriminate].
  destruct (existsb badControlPoint params) eqn:Hbad; [discriminate|].
  intros [= <- <-]. split; [done|].
  destruct (controlPoints_good params Hbad) as [Hl Hall]. simpl. by rewrite Hl.
Qed.

(** On the numbers of this development the two comparisons decide the
    order: a test [x > y] that fails means [x <= y]. *)
Lemma Qgtb_false_le x y : Qgtb x y = false <-> (x <= y)%Q.
Proof.
  unfold Qgtb. destruct (x ?= y)%Q eqn:Hc.
  - apply Qeq_alt in Hc. split; [intros _; by apply Qle_lteq; right | done].
  - apply Qlt_alt in Hc. split; [intros _; by apply Qlt_le_weak | done].
  - apply Qgt_alt in Hc. split; [done | intros Hle; by apply Qlt_not_le in Hc].
Qed.

Lemma passesBounds_interval t : passesBounds t <-> (0 <= t)%Q /\ (t <= 1)%Q.
Proof.
  unfold passesBounds. rewrite (Qgtb_false_le t 1).
  assert (Hlow : Qltb t 0 = false <-> (0 <= t)%Q); [|by rewrite Hlow].
  unfold Qltb. destruct (t ?= 0)%Q eqn:Hc.
  - apply Qeq_alt in Hc. split; [intros _; apply Qle_lteq; right; by symmetry | done].
  - apply Qlt_alt in Hc. split; [done | intros Hle; by apply Qlt_not_le in Hc].
  - apply Qgt_alt in Hc. split; [intros _; by apply Qlt_le_weak | done].
Qed.

Lemma neverDescends_snoc labels q :
  neverDescends labels ->
  match last labels with Some x => Qgtb x q = false | None => True end ->
  neverDescends (labels ++ [q]).
Proof.
  induction labels as [|x [|y labels] IH]; intros Hsorted Hlast; [done | by split |].
  destruct Hsorted as [Hxy Hsorted]. split; [done|]. by apply IH.
Qed.

Lemma descends_false stops q :
  descends stops q = false ->
  match last (map fst stops) with Some x => Qgtb x q = false | None => True end.
Proof.
  unfold descends. change (map fst stops) with (fst <$> stops). rewrite fmap_last.
  by destruct (last stops) as [[previous e]|].
Qed.

Section CurveInvariants.

Variable typeName : Ty -> string.
Variable jsString : JSON -> string.
Variable rec : Parse.

Lemma parseStops_neverDescends n :
  forall rest, length rest <= n ->
  forall i stops outputType context h stops' outputType' h',
    neverDescends (map fst stops) ->
    parseStops rec rest i stops outputType context h = (Some (stops', outputType'), h') ->
    neverDescends (map fst stops').
Proof.
  induction n as [|n IH];
    intros rest Hlen i stops outputType context h stops' outputType' h' Hsorted Hrun.
  { destruct rest; [|simpl in Hlen; lia]. simpl in Hrun. by injection Hrun as <- <- <-. }
  destruct rest as [|label rest1].
  { simpl in Hrun. by injection Hrun as <- <- <-. }
  destruct label; simpl in Hrun; try discriminate.
  destruct (descends stops q) eqn:Hdesc; [discriminate|].
  destruct rest1 as [|value rest2]; [discriminate|].
  destruct (rec value _ h) as [[parsed|] h1]; simpl in Hrun; [|discriminate].
  eapply IH in Hrun; [done | simpl in Hlen; lia |].
  rewrite map_app. simpl. apply neverDescends_snoc; [done | by apply descends_false].
Qed.

Lemma parseStops_pairs n :
  forall rest, length rest <= n ->
  forall i stops outputType context h stops' outputType' h',
    parseStops rec rest i stops outputType context h = (Some (stops', outputType'), h') ->
    exists pairs,
      rest = flatten pairs
      /\ map (fun stop => JNum stop.1) stops'
         = map (fun stop => JNum stop.1) stops ++ map fst pairs
      /\ length stops' = length stops + length pairs.
Proof.
  induction n as [|n IH];
    intros rest Hlen i stops outputType context h stops' outputType' h' Hrun.
  { destruct rest; [|simpl in Hlen; lia]. simpl in Hrun. injection Hrun as <- <- <-.
    exists []. by rewrite app_nil_r, Nat.add_0_r. }
  destruct rest as [|label rest1].
  { simpl in Hrun. injection Hrun as <- <- <-.
    exists []. by rewrite app_nil_r, Nat.add_0_r. }
  destruct label; simpl in Hrun; try discriminate.
  destruct (descends stops q); [discriminate|].
  destruct rest1 as [|value rest2]; [discriminate|].
  destruct (rec value _ h) as [[parsed|] h1]; simpl in Hrun; [|discriminate].
  eapply IH in Hrun as (pairs & -> & Hlabels & Hcount); [| simpl in Hlen; lia].
  exists ((JNum q, value) :: pairs). split_and!; [done | |].
  - rewrite Hlabels, map_app. simpl. by rewrite <- app_assoc.
  - rewrite Hcount, length_app. simpl. lia.
Qed.

(** What a successful call went through. *)
Lemma Curve_parse_inv args context expectedType h e h' :
  Curve_parse typeName jsString rec args context expectedType h = (Some e, h') ->
  exists op interpolation input rest i h1 input' h2 stops t,
    args = op :: interpolation :: input :: rest
    /\ 2 <= length rest
    /\ parseInterpolation jsString interpolation context h = (Some i, h1)
    /\ rec input (concat context 2 (Some (ExpName "curve")) None) h1 = (Some input', h2)
    /\ parseStops rec rest 0 [] expectedType context h2 = (Some (stops, Some t), h')
    /\ notInterpolatable i t = false
    /\ e = Curve (key context) t i input' stops.
Proof.
  intros Hrun.
  destruct (Curve_parse_cases args)
    as [Hshort | (op & interpolation & input & rest & -> & Hlen)].
  { rewrite Curve_parse_short in Hrun by done. discriminate. }
  rewrite Curve_parse_long in Hrun by done.
  destruct (parseInterpolation jsString interpolation context h)
    as [[i|] h1] eqn:Hinterp; [|discriminate].
  destruct (rec input _ h1) as [[input'|] h2] eqn:Hinput; [|discriminate].
  destruct (parseStops rec rest 0 [] expectedType context h2)
    as [[[stops outputType]|] h3] eqn:Hstops; [|discriminate].
  unfold finishCurve in Hrun. destruct outputType as [t|]; [|discriminate].
  destruct (notInterpolatable i t) eqn:Hni; [discriminate|].
  injection Hrun as <- <-. eauto 20.
Qed.

(** X17: the interpolation of a curve that [Curve.parse] returns is well
    formed: a cubic Bezier interpolation has exactly four control points,
    and for none of them does the test [t < 0] or the test [t > 1] hold. *)
Theorem Curve_parse_interpolation args context expectedType h k t i input stops h' :
  Curve_parse typeName jsString rec args context expectedType h
  = (Some (Curve k t i input stops), h') ->
  wellFormedInterpolation i.
Proof.
  intros (op & interpolation & inp & rest & i0 & h1 & input' & h2 & stops0 & t0
          & -> & Hlen & Hinterp & Hinput & Hstops & Hni & Heq)%Curve_parse_inv.
  injection Heq as _ _ -> _ _.
  by apply parseInterpolation_wellFormed in Hinterp as [_ Hwf].
Qed.

(** X18: in a curve that [Curve.parse] returns, no stop has a label that
    is greater, by the comparison [>] of line 90, than the label of the stop
    after it; equal neighbours are possible. *)
Theorem Curve_parse_labels args context expectedType h k t i input stops h' :
  Curve_parse typeName jsString rec args context expectedType h
  = (Some (Curve k t i input stops), h') ->
  neverDescends (map fst stops).
Proof.
  intros (op & interpolation & inp & rest & i0 & h1 & input' & h2 & stops0 & t0
          & -> & Hlen & Hinterp & Hinput & Hstops & Hni & Heq)%Curve_parse_inv.
  injection Heq as _ _ _ _ ->.
  by eapply parseStops_neverDescends in Hstops; [| apply Nat.le_refl |].
Qed.

(** X19: when [Curve.parse] returns a curve, the arguments after the input
    are whole label/value pairs, at least one, and the curve has one stop
    per pair, with the labels of the pairs in their order; a trailing label
    without a value makes the call fail. *)
Theorem Curve_parse_pairs args context expectedType h k t i input stops h' :
  Curve_parse typeName jsString rec args context expectedType h
  = (Some (Curve k t i input stops), h') ->
  exists op interpolation rawInput pairs,
    args = op :: interpolation :: rawInput :: flatten pairs
    /\ pairs ≠ []
    /\ length stops = length pairs
    /\ map (fun stop => JNum stop.1) stops = map fst pairs.
Proof.
  intros (op & interpolation & inp & rest & i0 & h1 & input' & h2 & stops0 & t0
          & -> & Hlen & Hinterp & Hinput & Hstops & Hni & Heq)%Curve_parse_inv.
  injection Heq as _ _ _ _ ->.
  eapply parseStops_pairs in Hstops as (pairs & -> & Hlabels & Hcount); [| apply Nat.le_refl].
  exists op, interpolation, inp, pairs. split_and!; try done.
  intros ->. simpl in Hlen. lia.
Qed.

(** X20: when [Curve.parse] is given an expected type, the curve it returns
    has that type, whatever the types of its stops. *)
Theorem Curve_parse_expectedType args context T h e h' :
  Curve_parse typeName jsString rec args context (Some T) h = (Some e, h') ->
  exprType e = T.
Proof.
  intros (op & interpolation & inp & rest & i0 & h1 & input' & h2 & stops0 & t0
          & -> & Hlen & Hinterp & Hinput & Hstops & Hni & ->)%Curve_parse_inv.
  simpl.
  assert (Hkeep : forall n rest, length rest <= n ->
            forall i stops context h stops' outputType' h',
              parseStops rec rest i stops (Some T) context h
              = (Some (stops', outputType'), h') -> outputType' = Some T).
  { clear. induction n as [|n IH]; intros rest Hlen i stops context h stops' outputType' h' Hrun.
    { destruct rest; [|simpl in Hlen; lia]. simpl in Hrun. by injection Hrun as <- <- <-. }
    destruct rest as [|label rest1].
    { simpl in Hrun. by injection Hrun as <- <- <-. }
    destruct label; simpl in Hrun; try discriminate.
    destruct (descends stops q); [discriminate|].
    destruct rest1 as [|value rest2]; [discriminate|].
    destruct (rec value _ h) as [[parsed|] h1]; simpl in Hrun; [|discriminate].
    eapply IH in Hrun; [done | simpl in Hlen; lia]. }
  eapply Hkeep in Hstops; [| apply Nat.le_refl]. by injection Hstops as ->.
Qed.

End CurveInvariants.

(** ** Curves reached through the dispatcher *)

Lemma notInterpolatable_Error i : notInterpolatable i ErrorType = false -> i = Step.
Proof. by destruct i. Qed.

Section ThroughDispatcher.

Variable toString : Expected -> string.
Variable typeName : Ty -> string.
Variable jsString : JSON -> string.
Variable otherParse : string -> list JSON -> ParsingContext -> Store -> option Expression * Store.

Lemma checkExpected_name context name parsed h e h' :
  expectedType context = Some (ExpName name) ->
  checkExpected toString context parsed h = (Some e, h') ->
  name = EmptyString \/ exprType e = ErrorType.
Proof.
  intros Hexp. unfold checkExpected. rewrite Hexp. simpl.
  destruct (String.eqb_spec name EmptyString) as [-> | Hne]; [by left|]. simpl.
  rewrite checkSubtype_unfold. unfold checkSubtypeBody.
  destruct (exprType parsed) eqn:Ht; simpl; try discriminate.
  intros [= <- _]. by right.
Qed.

Lemma parseArray_name (rec : Parse) items context h e h' :
  expectedType context = Some (ExpName "curve") ->
  parseArray toString typeName jsString otherParse rec items context h = (Some e, h') ->
  exprType e = ErrorType.
Proof.
  intros Hexp Hrun. unfold parseArray in Hrun.
  destruct items as [|op items']; [discriminate|].
  destruct op as [| | |op| | | |]; try discriminate.
  destruct (definitions context !! op) as [class|]; [|discriminate].
  destruct (Expr_parse _ _ _ rec class _ context h) as [[parsed|] h1]; [|discriminate].
  by destruct (checkExpected_name context "curve" parsed h1 e h' Hexp Hrun).
Qed.

Lemma parseExpression_name v context h e h' :
  expectedType context = Some (ExpName "curve") ->
  parseExpression toString typeName jsString otherParse v context h = (Some e, h') ->
  exprType e = ErrorType.
Proof.
  intros Hexp Hrun.
  pose (self := parseExpression toString typeName jsString otherParse).
  destruct v as [|b|q|s|items| | |]; try discriminate.
  - exact (parseArray_name self [JStr "literal"; JNull] context h e h' Hexp Hrun).
  - exact (parseArray_name self [JStr "literal"; JBool b] context h e h' Hexp Hrun).
  - exact (parseArray_name self [JStr "literal"; JNum q] context h e h' Hexp Hrun).
  - exact (parseArray_name self [JStr "literal"; JStr s] context h e h' Hexp Hrun).
  - exact (parseArray_name self items context h e h' Hexp Hrun).
Qed.

Lemma parseStops_Error n :
  forall rest, length rest <= n ->
  forall i stops outputType context h stops' outputType' h',
    Forall (fun stop => exprType stop.2 = ErrorType) stops ->
    parseStops (parseExpression toString typeName jsString otherParse)
      rest i stops outputType context h = (Some (stops', outputType'), h') ->
    Forall (fun stop => exprType stop.2 = ErrorType) stops'.
Proof.
  induction n as [|n IH];
    intros rest Hlen i stops outputType context h stops' outputType' h' Hall Hrun.
  { destruct rest; [|simpl in Hlen; lia]. simpl in Hrun. by injection Hrun as <- <- <-. }
  destruct rest as [|label rest1].
  { simpl in Hrun. by injection Hrun as <- <- <-. }
  destruct label; simpl in Hrun; try discriminate.
  destruct (descends stops q); [discriminate|].
  destruct rest1 as [|value rest2]; [discriminate|].
  destruct (parseExpression toString typeName jsString otherParse value _ h)
    as [[parsed|] h1] eqn:Hvalue; simpl in Hrun; [|discriminate].
  apply parseExpression_name in Hvalue; [|done].
  eapply IH in Hrun; [done | simpl in Hlen; lia |].
  apply Forall_app. split; [done|]. by apply Forall_singleton.
Qed.

(** X21: the children of a curve are parsed in contexts that hold the name
    ['curve'] where a type is expected, and the dispatcher checks their types
    against it.  So a curve that [parseExpression] returns has an input and
    stops of type [Error] only, has type [Error] itself, and has the [step]
    interpolation, the only one the interpolatability test lets through for
    that type. *)
Theorem parseExpression_Curve_children op items context h e h' :
  definitions context !! op = Some KCurve ->
  parseExpression toString typeName jsString otherParse (JArr (JStr op :: items)) context h
  = (Some e, h') ->
  exists input stops,
    e = Curve (key context) ErrorType Step input stops
    /\ exprType input = ErrorType
    /\ Forall (fun stop => exprType stop.2 = ErrorType) stops.
Proof.
  intros Hop Hrun.
  change (parseArray toString typeName jsString otherParse
            (parseExpression toString typeName jsString otherParse)
            (JStr op :: items) context h = (Some e, h')) in Hrun.
  unfold parseArray in Hrun. rewrite Hop in Hrun. unfold Expr_parse in Hrun.
  destruct (Curve_parse typeName jsString _ (JStr op :: items) context None h)
    as [[parsed|] h0] eqn:Hcurve; [|discriminate].
  apply checkExpected_Some in Hrun as ->.
  apply Curve_parse_inv in Hcurve
    as (op' & interpolation & inp & rest & i0 & h1 & input' & h2 & stops & t
        & Heq & Hlen & Hinterp & Hinput & Hstops & Hni & ->).
  apply parseExpression_name in Hinput; [|done].
  pose proof Hstops as Htyped.
  eapply parseStops_typed in Htyped; [| apply Nat.le_refl | done].
  eapply parseStops_Error in Hstops; [| apply Nat.le_refl | done].
  destruct stops as [|[label first] stops]; [discriminate|].
  simpl in Htyped. injection Htyped as ->.
  apply Forall_cons in Hstops as Hfirst. destruct Hfirst as [Hfirst _]. simpl in Hfirst.
  rewrite Hfirst in Hni |- *. apply notInterpolatable_Error in Hni as ->.
  eauto.
Qed.

(** *** Canonical forms parse alike *)

Lemma mapValues_length f rest : length (mapValues f rest) = length rest.
Proof.
  assert (H : forall n rest, length rest <= n -> length (mapValues f rest) = length rest).
  { clear rest. induction n as [|n IH]; intros [|a [|b rest]] Hlen; simpl in *; try done; try lia.
    rewrite IH; [done | lia]. }
  by apply (H (length rest)).
Qed.

Lemma parseStops_canonical (rec : Parse) defs n :
  forall rest, length rest <= n -> Forall (canonicalBlind rec defs) rest ->
  forall i stops outputType context h,
    definitions context = defs ->
    parseStops rec (mapValues (canonical defs) rest) i stops outputType context h
    = parseStops rec rest i stops outputType context h.
Proof.
  induction n as [|n IH]; intros rest Hlen Hrec i stops outputType context h Hdefs.
  { by destruct rest; [|simpl in Hlen; lia]. }
  destruct rest as [|label [|value rest2]]; [done | done |].
  apply Forall_cons in Hrec as [_ Hrec]. apply Forall_cons in Hrec as [Hvalue Hrec].
  change (mapValues (canonical defs) (label :: value :: rest2))
    with (label :: canonical defs value :: mapValues (canonical defs) rest2).
  destruct label; try reflexivity. cbn [parseStops].
  destruct (descends stops q); [done|].
  rewrite Hvalue by done.
  destruct (parseStop _ q stops outputType) as [[[stops' outputType']|] h']; [|done].
  apply IH; [simpl in Hlen; lia | done | done].
Qed.

Lemma parseArray_canonical (rec : Parse) defs items items' context h :
  definitions context = defs ->
  Forall (canonicalBlind rec defs) (drop 2 items) ->
  canonical defs (JArr items) = JArr items' ->
  parseArray toString typeName jsString otherParse rec items' context h
  = parseArray toString typeName jsString otherParse rec items context h.
Proof.
  intros Hdefs Hrec Hcanon.
  destruct items as [|op [|interpolation [|input rest]]];
    try (by injection Hcanon as <-);
    destruct op as [| | |op| | | |]; try (by injection Hcanon as <-).
  simpl in Hcanon. destruct (defs !! op) as [[|class]|] eqn:Hop;
    try (by injection Hcanon as <-).
  injection Hcanon as <-. simpl in Hrec. apply Forall_cons in Hrec as [Hinput Hrec].
  unfold parseArray. rewrite Hdefs, Hop. unfold Expr_parse, Curve_parse.
  cbn [tail length]. rewrite mapValues_length.
  destruct (Nat.ltb (S (S (length rest))) 4); [done|].
  destruct (parseInterpolation jsString interpolation context h) as [[i|] h1]; [|done].
  rewrite Hinput by done.
  destruct (rec input _ h1) as [[input'|] h2]; [|done].
  by rewrite (parseStops_canonical rec defs (length rest)).
Qed.

Lemma parseExpression_canonicalBlind defs j :
  canonicalBlind (parseExpression toString typeName jsString otherParse) defs j.
Proof.
  pose (self := parseExpression toString typeName jsString otherParse).
  induction j as [|b|q|s|items IH|fields| |n] using JSON_nested_ind;
    intros context h Hdefs; try reflexivity.
  destruct (canonical defs (JArr items)) as [| | | |items'| | |] eqn:Hcanon;
    try (by destruct items as [|[| | |op| | | |] [|? [|? ?]]];
         simpl in Hcanon; try discriminate;
         destruct (defs !! op) as [[|?]|]; discriminate).
  apply (parseArray_canonical self defs items items' context h Hdefs); [|done].
  by apply Forall_drop.
Qed.

(** X22: a raw value and its canonical form, in which the bare scalars in
    the input and value positions of curves are written as
    [["literal", v]], parse to the same result and leave the same store. *)
Theorem parseExpression_canonical j context h :
  parseExpression toString typeName jsString otherParse
    (canonical (definitions context) j) context h
  = parseExpression toString typeName jsString otherParse j context h.
Proof. by apply parseExpression_canonicalBlind. Qed.

Lemma serialize_comesBack defs j :
  roundTrips otherParse ->
  (forall op, defs !! op = Some KCurve -> op = "curve") ->
  comesBack (parseExpression toString typeName jsString otherParse) defs j.
Proof.
  intros Hround Hname.
  pose (self := parseExpression toString typeName jsString otherParse).
  induction j as [|b|q|s|items IH|fields| |n] using JSON_nested_ind;
    intros context h e h' Hdefs Hexact Hrun; try discriminate;
    try (by apply (parseArray_back toString typeName jsString otherParse
                     self defs [JStr "literal"; _] context h e h');
         try done; constructor).
  apply (parseArray_back toString typeName jsString otherParse
           self defs items context h e h'); try done.
  by apply Forall_drop.
Qed.

(** X26: parsing what [serialize] gives back yields the expression again:
    if [j] parses to [e], then [serialize(e)] parses, in the same context and
    store, to [e] too, under the conditions of the round trip (no surplus
    element in an interpolation array, [Curve] registered as ["curve"] only,
    and the classes of the host serializing to the array they parsed). *)
Theorem parse_serialize_parse j context h e h' :
  roundTrips otherParse ->
  (forall op, definitions context !! op = Some KCurve -> op = "curve") ->
  exactCurves (definitions context) j = true ->
  parseExpression toString typeName jsString otherParse j context h = (Some e, h') ->
  parseExpression toString typeName jsString otherParse (serialize e) context h
  = (Some e, h').
Proof.
  intros Hround Hname Hexact Hrun.
  rewrite (serialize_comesBack (definitions context) j Hround Hname context h e h'
             eq_refl Hexact Hrun).
  by rewrite parseExpression_canonicalBlind.
Qed.

End ThroughDispatcher.

(** ** Labels that are not numbers *)

Section LabelFacts.

Variable toString : Expected -> string.
Variable typeName : Ty -> string.
Variable jsString : JSON -> string.
Variable otherParse : string -> list JSON -> ParsingContext -> Store -> option Expression * Store.

(** X24: a label that is not a number stops [Curve.parse]: once the
    interpolation, the input and the pairs before index [i] have been parsed,
    a label at index [i] that is not a number (a string, an array that would
    compute one, ...) makes the call return nothing and push the
    literal-label error, keyed by the key of the context extended by
    [i + 3]; its value is not parsed. *)
Theorem Curve_parse_label op interpolation input pairs label more context expectedType h
    interpolation' h1 input' h2 stops outputType h3 :
  let rec := parseExpression toString typeName jsString otherParse in
  let i := 2 * length pairs in
  2 <= length (flatten pairs ++ label :: more) ->
  parseInterpolation jsString interpolation context h = (Some interpolation', h1) ->
  rec input (concat context 2 (Some (ExpName "curve")) None) h1 = (Some input', h2) ->
  parseStops rec (flatten pairs) 0 [] expectedType context h2 = (Some (stops, outputType), h3) ->
  isNumber label = false ->
  Curve_parse typeName jsString rec
    (op :: interpolation :: input :: flatten pairs ++ label :: more)
    context expectedType h
  = (None, error context msgLabel [i + 3] h3).
Proof.
  intros rec i Hlen Hinterp Hinput Hstops Hlabel.
  rewrite Curve_parse_long by done.
  rewrite Hinterp, Hinput, parseStops_app, Hstops.
  change (0 + 2 * length pairs) with i.
  by destruct label.
Qed.

End LabelFacts.

(** ** Further runs on the concrete host *)

Lemma parseExpression_malformed_witness :
  Host.parse (JArr [JNum 1; JNum 2]) Host.root Host.emptyStore
  = (None, error Host.root (msgOperatorName (JNum 1)) [0] Host.emptyStore).
Proof.
  exact (parseExpression_malformed Host.toString Host.typeName Host.jsString Host.otherParse
           (JArr [JNum 1; JNum 2]) Host.root Host.emptyStore eq_refl).
Defined.

Lemma parseExpression_Curve_arity_witness :
  Host.parse (JArr [JStr "curve"; JArr [JStr "linear"]; Host.err]) Host.root Host.emptyStore
  = (None, error Host.root (msgTooFew 2) [] Host.emptyStore).
Proof.
  apply (parseExpression_Curve_arity Host.toString Host.typeName Host.jsString
           Host.otherParse "curve" [JArr [JStr "linear"]; Host.err] Host.root Host.emptyStore);
    [reflexivity | simpl; lia].
Defined.

Lemma onlyCurve_singleton : onlyCurve (<["curve" := KCurve]> ∅).
Proof.
  intros op class Hop. destruct (decide (op = "curve")) as [-> | Hne].
  - rewrite lookup_insert_eq in Hop. by injection Hop as <-.
  - rewrite lookup_insert_ne in Hop by done. by rewrite lookup_empty in Hop.
Qed.

Lemma bezier_run :
  Curve_parse Host.typeName Host.jsString Host.parse bezierArgs Host.root (Some NumberType)
    Host.emptyStore
  = (Some bezierCurve, Host.emptyStore).
Proof. vm_compute. reflexivity. Qed.

Lemma Curve_parse_interpolation_witness :
  wellFormedInterpolation (CubicBezier [0%Q; (1 # 2)%Q; 1%Q; 1%Q]).
Proof.
  exact (Curve_parse_interpolation Host.typeName Host.jsString Host.parse bezierArgs
           Host.root (Some NumberType) Host.emptyStore _ _ _ _ _ _ bezier_run).
Defined.

Lemma Curve_parse_labels_witness : neverDescends [0%Q; 0%Q; 3%Q].
Proof.
  exact (Curve_parse_labels Host.typeName Host.jsString Host.parse bezierArgs
           Host.root (Some NumberType) Host.emptyStore _ _ _ _ _ _ bezier_run).
Defined.

Lemma Curve_parse_pairs_witness :
  exists op interpolation rawInput pairs,
    bezierArgs = op :: interpolation :: rawInput :: flatten pairs
    /\ pairs ≠ []
    /\ 3 = length pairs
    /\ [JNum 0; JNum 0; JNum 3] = map fst pairs.
Proof.
  exact (Curve_parse_pairs Host.typeName Host.jsString Host.parse bezierArgs
           Host.root (Some NumberType) Host.emptyStore _ _ _ _ _ _ bezier_run).
Defined.

Lemma Curve_parse_expectedType_witness : exprType bezierCurve = NumberType.
Proof.
  exact (Curve_parse_expectedType Host.typeName Host.jsString Host.parse bezierArgs
           Host.root NumberType Host.emptyStore _ _ bezier_run).
Defined.

Lemma parseExpression_Curve_children_witness :
  exists input stops,
    Curve EmptyString ErrorType Step (Other "[2]" ErrorType Host.err)
      [(0%Q, Other "[4]" ErrorType Host.err)]
    = Curve (key Host.root) ErrorType Step input stops
    /\ exprType input = ErrorType
    /\ Forall (fun stop => exprType stop.2 = ErrorType) stops.
Proof.
  exact (parseExpression_Curve_children Host.toString Host.typeName Host.jsString
           Host.otherParse "curve" [JArr [JStr "step"]; Host.err; JNum 0; Host.err]
           Host.root Host.emptyStore _ Host.emptyStore eq_refl eq_refl).
Defined.

Example nested_error_key :
  readErrors (Host.parse (JArr [JStr "curve"; JArr [JStr "step"]; Host.err; JNum 0;
                                JArr [JStr "literal"]]) Host.root Host.emptyStore).2 0
  = [mkParsingError "[4]" "'literal' expression requires exactly one argument."].
Proof. vm_compute. reflexivity. Qed.

Lemma Curve_parse_label_witness :
  Curve_parse Host.typeName Host.jsString Host.parse
    [JStr "curve"; JArr [JStr "step"]; Host.err; JNum 0; Host.err; JStr "one"; Host.err]
    Host.root None Host.emptyStore
  = (None, error Host.root msgLabel [5] Host.emptyStore).
Proof.
  apply (Curve_parse_label Host.toString Host.typeName Host.jsString Host.otherParse
           (JStr "curve") (JArr [JStr "step"]) Host.err [(JNum 0, Host.err)]
           (JStr "one") [Host.err] Host.root None Host.emptyStore
           Step Host.emptyStore (Other "[2]" ErrorType Host.err) Host.emptyStore
           [(0%Q, Other "[4]" ErrorType Host.err)] (Some ErrorType) Host.emptyStore);
    [simpl; lia | reflexivity..].
Defined.

Lemma parse_serialize_parse_witness :
  let e := Curve EmptyString ErrorType Step (Other "[2]" ErrorType Host.err)
             [(0%Q, Other "[4]" ErrorType Host.err)] in
  Host.parse (serialize e) Host.root Host.emptyStore = (Some e, Host.emptyStore).
Proof.
  exact (parse_serialize_parse Host.toString Host.typeName Host.jsString Host.otherParse
           (JArr [JStr "curve"; JArr [JStr "step"]; Host.err; JNum 0; Host.err])
           Host.root Host.emptyStore _ Host.emptyStore
           Host_roundTrips Host_registry_curve eq_refl eq_refl).
Defined.

(** ** The interpolation argument *)




Section Interpolation.

Variable jsString : JSON -> string.


End Interpolation.

(** ** The parser with its exceptions *)



Section ThrowingBasics.

Variable typeName : Ty -> string.
Variable jsString : JSON -> option string.
Variable rec : Throwing.Parse.

Lemma Throwing_Curve_parse_short args context expectedType h :
  length (tail args) < 4 ->
  Throwing.Curve_parse typeName jsString rec args context expectedType h
  = (ReturnedNull, error context (msgTooFew (length (tail args))) [] h).
Proof.
  intros Hlen. unfold Throwing.Curve_parse.
  by destruct (Nat.ltb_spec (length (tail args)) 4); [|lia].
Qed.

Lemma Throwing_Curve_parse_long op interpolation input rest context expectedType h :
  2 <= length rest ->
  Throwing.Curve_parse typeName jsString rec (op :: interpolation :: input :: rest)
    context expectedType h
  = match Throwing.parseInterpolation jsString interpolation context h with
    | (Thrown, h1) => (Thrown, h1)
    | (ReturnedNull, h1) => (ReturnedNull, h1)
    | (Returned interpolation', h1) =>
        match rec input (concat context 2 (Some (ExpName "curve")) None) h1 with
        | (Thrown, h2) => (Thrown, h2)
        | (ReturnedNull, h2) => (ReturnedNull, h2)
        | (Returned input', h2) =>
            match Throwing.parseStops rec rest 0 [] expectedType context h2 with
            | (Thrown, h3) => (Thrown, h3)
            | (ReturnedNull, h3) => (ReturnedNull, h3)
            | (Returned (stops, outputType), h3) =>
                completed (finishCurve typeName context interpolation' input' stops
                             outputType h3)
            end
        end
    end.
Proof.
  intros Hlen. unfold Throwing.Curve_parse.
  destruct (Nat.ltb_spec (length (tail (op :: interpolation :: input :: rest))) 4) as [Hlt|_];
    [simpl in Hlt; lia | done].
Qed.

Lemma Throwing_parseStops_outputType n :
  forall rest, length rest <= n ->
  forall i stops outputType context h stops' outputType' h',
    Throwing.parseStops rec rest i stops outputType context h
    = (Returned (stops', outputType'), h') ->
    rest ≠ [] \/ is_Some outputType -> is_Some outputType'.
Proof.
  induction n as [|n IH];
    intros rest Hlen i stops outputType context h stops' outputType' h' Hrun Hset.
  { destruct rest; [|simpl in Hlen; lia]. simpl in Hrun. injection Hrun as <- <- <-.
    by destruct Hset. }
  destruct rest as [|label rest1].
  { simpl in Hrun. injection Hrun as <- <- <-. by destruct Hset. }
  destruct label; simpl in Hrun; try discriminate.
  destruct (descends stops q); [discriminate|].
  destruct rest1 as [|value rest2]; [discriminate|].
  destruct (rec value _ h) as [[parsed| |] h1]; try discriminate.
  eapply IH in Hrun; [done | simpl in Hlen; lia |].
  right. by destruct outputType.
Qed.

End ThrowingBasics.

Section Reporting.

Variable toString : Expected -> string.
Variable typeName : Ty -> string.
Variable jsString : JSON -> option string.
Variable inherited : string -> bool.
Variable otherParse : string -> list JSON -> ParsingContext -> Store -> option Expression * Store.

(** The contexts considered and the property of the errors; both pass from
    a context to the contexts derived from it and back. *)
Variable I : ParsingContext -> Prop.
Variable P : ParsingContext -> ParsingError -> Prop.

Hypothesis I_child : forall c i expected bindings, I c -> I (concat c i expected bindings).
Hypothesis P_error : forall c message keys,
  P c (mkParsingError (key c +:+ String.concat EmptyString (map bracket keys)) message).
Hypothesis P_child : forall c i expected bindings e,
  I c -> P (concat c i expected bindings) e -> P c e.
Hypothesis host : forall class args c h,
  I c -> reported P c h (completed (otherParse class args c h)).

Lemma reported_error {A : Type} c message keys h :
  reported (A := A) P c h (ReturnedNull, error c message keys h).
Proof. unfold reported, error. simpl. eauto. Qed.

Lemma reported_child {A B : Type} c i expected bindings h h' :
  I c ->
  reported (A := A) P (concat c i expected bindings) h (ReturnedNull, h') ->
  reported (A := B) P c h (ReturnedNull, h').
Proof. intros Hc (e & Hpush & He). exists e. split; [done | by eapply P_child]. Qed.

Lemma errorWithString_reported {A : Type} c v message keys h :
  reported (A := A) P c h (Throwing.errorWithString jsString c v message keys h).
Proof.
  unfold Throwing.errorWithString. destruct (jsString v); [apply reported_error | done].
Qed.

Lemma Throwing_parseInterpolation_reported interpolation context h :
  reported P context h (Throwing.parseInterpolation jsString interpolation context h).
Proof.
  unfold Throwing.parseInterpolation.
  destruct interpolation as [| | | |[|name params]| | |];
    try apply errorWithString_reported.
  repeat (case_match; try apply reported_error; try apply errorWithString_reported;
          try reflexivity).
Qed.

Lemma Throwing_parseStops_reported (rec : Throwing.Parse) n :
  forall rest, length rest <= n -> Forall (reports I P rec) rest ->
  forall i stops outputType context h,
    I context ->
    reported P context h (Throwing.parseStops rec rest i stops outputType context h).
Proof.
  induction n as [|n IH]; intros rest Hlen Hrec i stops outputType context h Hc.
  { destruct rest; [reflexivity | simpl in Hlen; lia]. }
  destruct rest as [|label rest1]; [reflexivity|].
  destruct label; simpl; try apply reported_error.
  destruct (descends stops q); [apply reported_error|].
  destruct rest1 as [|value rest2].
  { eapply (reported_child (A := Expression)); [done | apply reported_error]. }
  apply Forall_cons in Hrec as [_ Hrec]. apply Forall_cons in Hrec as [Hvalue Hrec].
  specialize (Hvalue (concat context (i + 4) (Some (ExpName "curve")) None) h
                (I_child _ _ _ _ Hc)).
  destruct (rec value _ h) as [[parsed| |] h'].
  - unfold reported in Hvalue. simpl in Hvalue. subst h'.
    apply IH; [simpl in Hlen; lia | done..].
  - by eapply reported_child.
  - exact Hvalue.
Qed.

Lemma Throwing_Curve_parse_reported (rec : Throwing.Parse) args context h :
  I context ->
  Forall (reports I P rec) (drop 2 args) ->
  reported P context h (Throwing.Curve_parse typeName jsString rec args context None h).
Proof.
  intros Hc Hrec.
  destruct (Curve_parse_cases args) as [Hshort | (op & interpolation & input & rest & -> & Hlen)].
  { rewrite Throwing_Curve_parse_short by done. apply reported_error. }
  rewrite Throwing_Curve_parse_long by done. simpl in Hrec.
  apply Forall_cons in Hrec as [Hinput Hrec].
  pose proof (Throwing_parseInterpolation_reported interpolation context h) as Hi.
  destruct (Throwing.parseInterpolation jsString interpolation context h)
    as [[interpolation'| |] h1]; [| exact Hi..].
  unfold reported in Hi. simpl in Hi. subst h1.
  specialize (Hinput (concat context 2 (Some (ExpName "curve")) None) h (I_child _ _ _ _ Hc)).
  destruct (rec input _ h) as [[input'| |] h2];
    [| by eapply reported_child | exact Hinput].
  unfold reported in Hinput. simpl in Hinput. subst h2.
  pose proof (Throwing_parseStops_reported rec (length rest) rest (Nat.le_refl _) Hrec
                0 [] None context h Hc) as Hs.
  destruct (Throwing.parseStops rec rest 0 [] None context h)
    as [[[stops outputType]| |] h3] eqn:Hrun; [| exact Hs..].
  unfold reported in Hs. simpl in Hs. subst h3.
  eapply Throwing_parseStops_outputType in Hrun as [t ->]; [| apply Nat.le_refl |].
  - unfold finishCurve. destruct (notInterpolatable interpolation' t);
      [apply reported_error | reflexivity].
  - left. destruct rest; [simpl in Hlen; lia | done].
Qed.

Lemma checkExpected_reported context parsed h :
  reported P context h (completed (checkExpected toString context parsed h)).
Proof.
  unfold checkExpected.
  destruct (expectedType context) as [expected|]; [|reflexivity].
  destruct (truthy expected); [|reflexivity].
  destruct (checkSubtype_outcome toString expected (exprType parsed) (Some context) h)
    as [-> | ->]; [reflexivity | apply reported_error].
Qed.

Lemma Throwing_parseArray_reported (rec : Throwing.Parse) items context h :
  I context ->
  Forall (reports I P rec) (drop 2 items) ->
  reported P context h
    (Throwing.parseArray toString typeName jsString inherited otherParse rec items context h).
Proof.
  intros Hc Hrec. unfold Throwing.parseArray.
  destruct items as [|op items']; [apply reported_error|].
  destruct op; try apply reported_error.
  destruct (Throwing.lookup inherited context s) as [class| |];
    [| reflexivity | apply reported_error].
  match goal with
  | |- reported P context h (match ?run with _ => _ end) =>
      assert (Hparse : reported P context h run);
      [ destruct class; [by apply Throwing_Curve_parse_reported | by apply host]
      | destruct run as [[parsed| |] h']; [| exact Hparse..] ]
  end.
  unfold reported in Hparse. simpl in Hparse. subst h'.
  apply checkExpected_reported.
Qed.

Lemma Throwing_parseExpression_reported v :
  reports I P (Throwing.parseExpression toString typeName jsString inherited otherParse) v.
Proof.
  pose (self := Throwing.parseExpression toString typeName jsString inherited otherParse).
  induction v as [|b|q|s|items IH|fields| |n] using JSON_nested_ind;
    intros context h Hc;
    try apply reported_error;
    try (by apply (Throwing_parseArray_reported self [JStr "literal"; _] context h Hc);
         constructor).
  apply (Throwing_parseArray_reported self items context h Hc). by apply Forall_drop.
Qed.

End Reporting.

Section ThrowingFacts.

Variable toString : Expected -> string.
Variable typeName : Ty -> string.
Variable jsString : JSON -> option string.
Variable inherited : string -> bool.
Variable otherParse : string -> list JSON -> ParsingContext -> Store -> option Expression * Store.


(** X14: an operator that the registry object neither holds nor inherits is
    rejected with the unknown-expression error at position 0, whatever
    follows it; an operator that the object only inherits from its prototype
    passes the test of line 163 and the call throws, with nothing pushed.
    When ["literal"] is such an operator, every scalar (null, a boolean, a
    number, a string) meets the same fate, the error being at a position 0
    that the scalar does not have. *)
Theorem parseExpression_unknown op items v context h :
  definitions context !! op = None ->
  let outcome : Result Expression * Store :=
    if inherited op then (Thrown, h)
    else (ReturnedNull, error context (msgUnknown op) [0] h) in
  Throwing.parseExpression toString typeName jsString inherited otherParse
    (JArr (JStr op :: items)) context h = outcome
  /\ (op = "literal" -> isScalar v = true ->
      Throwing.parseExpression toString typeName jsString inherited otherParse v context h
      = outcome).
Proof.
  intros Hop outcome.
  assert (Harr : forall items',
            Throwing.parseArray toString typeName jsString inherited otherParse
              (Throwing.parseExpression toString typeName jsString inherited otherParse)
              (JStr op :: items') context h = outcome).
  { intros items'. unfold Throwing.parseArray, Throwing.lookup. rewrite Hop.
    subst outcome. by destruct (inherited op). }
  split; [apply Harr|].
  intros Hlit Hv. rewrite <- (Harr [v]). subst op. by destruct v.
Qed.

Lemma Throwing_parseArray_onlyCurve (rec : Throwing.Parse) items context h e :
  onlyCurve (definitions context) ->
  Forall (returnsNothing rec) (drop 2 items) ->
  (Throwing.parseArray toString typeName jsString inherited otherParse rec items context h).1
  ≠ Returned e.
Proof.
  intros Honly Hrec. unfold Throwing.parseArray.
  destruct items as [|op items']; [done|].
  destruct op as [| | |op| | | |]; try done.
  unfold Throwing.lookup.
  destruct (definitions context !! op) as [class|] eqn:Hop;
    [|by destruct (inherited op)].
  rewrite (Honly op class Hop).
  destruct (Curve_parse_cases (JStr op :: items'))
    as [Hshort | (op' & interpolation & input & rest & Heq & Hlen)].
  { by rewrite Throwing_Curve_parse_short. }
  rewrite Heq, Throwing_Curve_parse_long by done.
  injection Heq as _ ->. simpl in Hrec. apply Forall_cons in Hrec as [Hinput _].
  destruct (Throwing.parseInterpolation jsString interpolation context h)
    as [[i| |] h1]; try done.
  pose proof (Hinput (concat context 2 (Some (ExpName "curve")) None) h1) as Hin.
  destruct (rec input _ h1) as [[input'| |] h2]; try done.
  by destruct (Hin input' Honly).
Qed.

(** X16: a registry that knows no class but [Curve] yields no expression:
    whatever the raw value, [parseExpression] returns nothing or throws,
    because the input of a curve must itself be parsed by some class. *)
Theorem parseExpression_onlyCurve v context h e :
  onlyCurve (definitions context) ->
  (Throwing.parseExpression toString typeName jsString inherited otherParse v context h).1
  ≠ Returned e.
Proof.
  pose (self := Throwing.parseExpression toString typeName jsString inherited otherParse).
  revert context h e. fold (returnsNothing self v).
  induction v as [|b|q|s|items IH|fields| |n] using JSON_nested_ind;
    intros context h e Honly; try done;
    try (by apply (Throwing_parseArray_onlyCurve self [JStr "literal"; _] context h e Honly);
         constructor).
  apply (Throwing_parseArray_onlyCurve self items context h e Honly). by apply Forall_drop.
Qed.

(** X23: errors are addressed inside the sub-expression that is being
    parsed.  When the classes of the host, in a context whose key is the one
    its path gives, keep the discipline and on failure push an error whose
    key starts with the key of that context, then so does [parseExpression]
    at every depth of nesting: in such a context a call that returns nothing
    has pushed exactly one error, whose key is the key of the context
    followed by some suffix, and a call that returns an expression or throws
    has pushed nothing. *)
Theorem parseExpression_addressed v context h :
  (forall class args c h0,
      wellKeyed c -> reported keyedUnder c h0 (completed (otherParse class args c h0))) ->
  wellKeyed context ->
  reported keyedUnder context h
    (Throwing.parseExpression toString typeName jsString inherited otherParse v context h).
Proof.
  intros Hother Hkey.
  apply (Throwing_parseExpression_reported toString typeName jsString inherited otherParse
           wellKeyed keyedUnder); try done.
  - intros c message keys. by eexists.
  - intros c i expected bindings e Hc [suffix He]. exists (bracket i +:+ suffix).
    rewrite He, key_concat, pathKey_snoc, <- Hc. apply string_app_assoc.
Qed.

End ThrowingFacts.

(** *** Runs without exception *)

Section Agreement.

Variable toString : Expected -> string.
Variable typeName : Ty -> string.
Variable jsString : JSON -> option string.
Variable jsStringTotal : JSON -> string.
Variable inherited : string -> bool.
Variable otherParse : string -> list JSON -> ParsingContext -> Store -> option Expression * Store.

Hypothesis jsString_total : forall v s, jsString v = Some s -> jsStringTotal v = s.

Lemma Throwing_parseInterpolation_agrees interpolation context h :
  (Throwing.parseInterpolation jsString interpolation context h).1 ≠ Thrown ->
  Throwing.parseInterpolation jsString interpolation context h
  = completed (parseInterpolation jsStringTotal interpolation context h).
Proof.
  assert (Hstr : forall A v (m : string -> string) keys,
            (Throwing.errorWithString (A := A) jsString context v m keys h).1 ≠ Thrown ->
            Throwing.errorWithString (A := A) jsString context v m keys h
            = (ReturnedNull, error context (m (jsStringTotal v)) keys h)).
  { intros A v m keys. unfold Throwing.errorWithString.
    destruct (jsString v) as [s|] eqn:Hs; [|done]. by rewrite (jsString_total v s Hs). }
  unfold Throwing.parseInterpolation, parseInterpolation.
  destruct interpolation as [| | | |[|name params]| | |]; try apply Hstr.
  repeat (case_match; try done; try apply Hstr).
Qed.

Lemma Throwing_parseStops_agrees (rec : Throwing.Parse) (total : Parse) n :
  forall rest, length rest <= n -> Forall (agrees rec total) rest ->
  forall i stops outputType context h,
    (Throwing.parseStops rec rest i stops outputType context h).1 ≠ Thrown ->
    Throwing.parseStops rec rest i stops outputType context h
    = completed (parseStops total rest i stops outputType context h).
Proof.
  induction n as [|n IH]; intros rest Hlen Hrec i stops outputType context h.
  { by destruct rest; [|simpl in Hlen; lia]. }
  destruct rest as [|label rest1]; [done|].
  destruct label; try done. simpl.
  destruct (descends stops q); [done|].
  destruct rest1 as [|value rest2]; [done|].
  apply Forall_cons in Hrec as [_ Hrec]. apply Forall_cons in Hrec as [Hvalue Hrec].
  specialize (Hvalue (concat context (i + 4) (Some (ExpName "curve")) None) h).
  destruct (rec value _ h) as [[parsed| |] h'] eqn:Hrun; intros Hno; try done.
  - specialize (Hvalue ltac:(done)).
    destruct (total value _ h) as [[parsed'|] h'']; simpl in Hvalue; try discriminate.
    injection Hvalue as <- <-. simpl. apply IH; [simpl in Hlen; lia | done..].
  - specialize (Hvalue ltac:(done)).
    destruct (total value _ h) as [[parsed'|] h'']; simpl in Hvalue; try discriminate.
    by injection Hvalue as <-.
Qed.

Lemma Throwing_parseArray_agrees (rec : Throwing.Parse) (total : Parse) items context h :
  Forall (agrees rec total) (drop 2 items) ->
  (Throwing.parseArray toString typeName jsString inherited otherParse rec items context h).1
  ≠ Thrown ->
  Throwing.parseArray toString typeName jsString inherited otherParse rec items context h
  = completed (parseArray toString typeName jsStringTotal otherParse total items context h).
Proof.
  intros Hrec. unfold Throwing.parseArray, parseArray, Throwing.lookup.
  destruct items as [|op items']; [done|].
  destruct op as [| | |op| | | |]; try done.
  destruct (definitions context !! op) as [class|]; [|by destruct (inherited op)].
  destruct class as [|class]; unfold Expr_parse.
  2:{ intros _. by destruct (otherParse class (JStr op :: items') context h) as [[parsed|] h']. }
  destruct (Curve_parse_cases (JStr op :: items'))
    as [Hshort | (op' & interpolation & input & rest & Heq & Hlen)].
  { by rewrite Throwing_Curve_parse_short, Curve_parse_short. }
  rewrite Heq, Throwing_Curve_parse_long, Curve_parse_long by done.
  injection Heq as _ ->. simpl in Hrec. apply Forall_cons in Hrec as [Hinput Hrec].
  pose proof (Throwing_parseInterpolation_agrees interpolation context h) as Hi.
  destruct (Throwing.parseInterpolation jsString interpolation context h)
    as [[i| |] h1]; intros Hno; try done;
    specialize (Hi ltac:(done));
    destruct (parseInterpolation jsStringTotal interpolation context h) as [[i'|] h1'];
    simpl in Hi; try discriminate; [injection Hi as <- <- | by injection Hi as <-].
  specialize (Hinput (concat context 2 (Some (ExpName "curve")) None) h1).
  destruct (rec input _ h1) as [[input'| |] h2]; try done;
    specialize (Hinput ltac:(done));
    destruct (total input _ h1) as [[input''|] h2'];
    simpl in Hinput; try discriminate; [injection Hinput as <- <- | by injection Hinput as <-].
  pose proof (Throwing_parseStops_agrees rec total (length rest) rest (Nat.le_refl _) Hrec
                0 [] None context h2) as Hs.
  destruct (Throwing.parseStops rec rest 0 [] None context h2)
    as [[[stops outputType]| |] h3]; try done;
    specialize (Hs ltac:(done));
    destruct (parseStops total rest 0 [] None context h2) as [[[stops' outputType']|] h3'];
    simpl in Hs; try discriminate; [injection Hs as <- <- <- | by injection Hs as <-].
  by destruct (finishCurve typeName context i input' stops outputType h3) as [[parsed|] h4].
Qed.

(** A run of the parser with exceptions that does not throw is a run of
    the parser without them: same result, same store. *)
Lemma Throwing_parseExpression_agrees v :
  agrees (Throwing.parseExpression toString typeName jsString inherited otherParse)
    (parseExpression toString typeName jsStringTotal otherParse) v.
Proof.
  pose (selfT := Throwing.parseExpression toString typeName jsString inherited otherParse).
  pose (self := parseExpression toString typeName jsStringTotal otherParse).
  induction v as [|b|q|s|items IH|fields| |n] using JSON_nested_ind;
    intros context h; try done;
    try (by apply (Throwing_parseArray_agrees selfT self [JStr "literal"; _] context h);
         constructor).
  apply (Throwing_parseArray_agrees selfT self items context h). by apply Forall_drop.
Qed.

End Agreement.

(** *** Runs on the concrete host, with a plain object as registry *)


(** The three outcomes: a curve, one error for a failing value, and an
    exception for an operator that the registry only inherits and for an
    interpolation argument that [String] cannot convert. *)
Example throwing_run_returns :
  HostT.parse (JArr [JStr "curve"; JArr [JStr "step"]; Host.err; JNum 0; Host.err])
    Host.root Host.emptyStore
  = (Returned (Curve EmptyString ErrorType Step (Other "[2]" ErrorType Host.err)
                 [(0%Q, Other "[4]" ErrorType Host.err)]),
     Host.emptyStore).
Proof. vm_compute. reflexivity. Qed.

Example throwing_run_fails :
  (HostT.parse (JArr [JStr "curve"; JArr [JStr "step"]; Host.err; JNum 0;
                      JArr [JStr "literal"]]) Host.root Host.emptyStore).1 = ReturnedNull
  /\ readErrors (HostT.parse (JArr [JStr "curve"; JArr [JStr "step"]; Host.err; JNum 0;
                                   JArr [JStr "literal"]]) Host.root Host.emptyStore).2 0
     = [mkParsingError "[4]" "'literal' expression requires exactly one argument."].
Proof. split; vm_compute; reflexivity. Qed.

Example throwing_run_inherited :
  HostT.parse (JArr [JStr "curve"; JArr [JStr "step"]; Host.err; JNum 0;
                     JArr [JStr "constructor"]]) Host.root Host.emptyStore
  = (Thrown, Host.emptyStore).
Proof. vm_compute. reflexivity. Qed.

Example throwing_run_String :
  HostT.parse (JArr [JStr "curve"; JObj [("toString", JNum 1)]; JNum 0; JNum 0; JNum 0])
    Host.root Host.emptyStore
  = (Thrown, Host.emptyStore).
Proof. vm_compute. reflexivity. Qed.

Lemma parseExpression_unknown_witness :
  HostT.parse (JArr [JStr "zoom"; JNum 1]) Host.root Host.emptyStore
  = (ReturnedNull, error Host.root (msgUnknown "zoom") [0] Host.emptyStore)
  /\ HostT.parse (JArr [JStr "toString"; JNum 1]) Host.root Host.emptyStore
     = (Thrown, Host.emptyStore).
Proof.
  split.
  - exact (proj1 (parseExpression_unknown Host.toString Host.typeName HostT.jsString
                    inheritedName Host.otherParse "zoom" [JNum 1] JNull
                    Host.root Host.emptyStore eq_refl)).
  - exact (proj1 (parseExpression_unknown Host.toString Host.typeName HostT.jsString
                    inheritedName Host.otherParse "toString" [JNum 1] JNull
                    Host.root Host.emptyStore eq_refl)).
Defined.

Lemma parseExpression_onlyCurve_witness :
  (HostT.parse
     (JArr [JStr "curve"; JArr [JStr "step"];
            JArr [JStr "curve"; JArr [JStr "step"]; JNum 0; JNum 0; JNum 0];
            JNum 0; JNum 1])
     (newParsingContext (<["curve" := KCurve]> ∅) [] None (newScope None []) 0)
     Host.emptyStore).1
  ≠ Returned (Other EmptyString NumberType JNull).
Proof.
  exact (parseExpression_onlyCurve Host.toString Host.typeName HostT.jsString inheritedName
           Host.otherParse _
           (newParsingContext (<["curve" := KCurve]> ∅) [] None (newScope None []) 0)
           Host.emptyStore _ onlyCurve_singleton).
Defined.

Lemma Host_keyedUnder class args c h0 :
  wellKeyed c -> reported keyedUnder c h0 (completed (Host.otherParse class args c h0)).
Proof.
  intros _. unfold Host.otherParse.
  repeat case_match; simplify_eq; try reflexivity;
    (eexists; split; [reflexivity | by eexists]).
Qed.

Lemma parseExpression_addressed_witness :
  reported keyedUnder Host.root Host.emptyStore
    (HostT.parse (JArr [JStr "curve"; JArr [JStr "step"]; Host.err; JNum 0;
                        JArr [JStr "literal"]]) Host.root Host.emptyStore).
Proof.
  exact (parseExpression_addressed Host.toString Host.typeName HostT.jsString inheritedName
           Host.otherParse _ Host.root Host.emptyStore Host_keyedUnder eq_refl).
Defined.
